(** * angryMiaoBatteryInfo: the HID battery reader and the polling plugin

    A shallow embedding of [src/hidReader.js] and of the polling logic of
    [src/plugin.js], followed by the properties of the specification that
    are checked against them.

    - [JS] holds the fragment of JavaScript values the two files rely on:
      numbers with [NaN] and the infinities, truthiness, [Math.trunc],
      [Math.round], [Math.max], and the string operations [trim],
      [toLowerCase], [includes], [parseInt], [toString(16)], [padStart].
    - [HidReader] is [hidReader.js]: [parseConfigInt], [normalisePath],
      [findDevicePath], [safeClose], the body of one attempt and the retry
      loop of [readBatteryPercentage].  The node-hid library is an
      environment that scripts what each call does; every call is logged.
    - [Plugin] is [plugin.js]: the module-level variables as a record,
      [statusesEqual], [pollAndUpdate] split at its [await],
      [ensurePolling], [stopPolling] and the event handlers.  The load of
      the stored configuration at start-up, [loadInitialConfig], is left
      out; of its retry timer only what the update handler resets is
      kept. *)

From Stdlib Require Import ZArith QArith Qround List String Ascii Bool Lia.
From Stdlib Require DecimalString HexadecimalString DecimalZ HexadecimalZ.
Import ListNotations.

Open Scope string_scope.
Open Scope Z_scope.

(* ================================================================== *)
(** ** JavaScript values *)

Module JS.

(** A JavaScript number.  A finite double is a rational, and truncation,
    rounding to the nearest integer, [max] and the comparisons are exact
    on it, so [Fin] carries a rational.  The two zeros are one value:
    nothing below tells them apart.  Products are taken exactly. *)
Inductive number : Type :=
| NaN
| PosInf
| NegInf
| Fin (q : Q).

Definition of_Z (z : Z) : number := Fin (inject_Z z).
Definition of_nat (n : nat) : number := of_Z (Z.of_nat n).

(** [ToBoolean]: [NaN] and zero are falsy. *)
Definition truthy (n : number) : bool :=
  match n with
  | NaN => false
  | Fin q => negb (Qeq_bool q 0)
  | PosInf | NegInf => true
  end.

(** [x || d] where [x] is a number or [undefined]. *)
Definition or_else (x : option number) (d : number) : number :=
  match x with
  | Some n => if truthy n then n else d
  | None => d
  end.

(** Truncation toward zero of a rational. *)
Definition Qtrunc (q : Q) : Z :=
  if Qle_bool 0 q then Qfloor q else Qceiling q.

Definition Math_trunc (n : number) : number :=
  match n with
  | Fin q => of_Z (Qtrunc q)
  | _ => n
  end.

(** [Math.round]: the nearest integer, ties toward +Infinity. *)
Definition Math_round (n : number) : number :=
  match n with
  | Fin q => of_Z (Qfloor (q + (1 # 2)))
  | _ => n
  end.

Definition Math_max (a b : number) : number :=
  match a, b with
  | NaN, _ | _, NaN => NaN
  | PosInf, _ | _, PosInf => PosInf
  | NegInf, x | x, NegInf => x
  | Fin p, Fin q => Fin (if Qle_bool p q then q else p)
  end.

(** [a <= b]: false as soon as one side is [NaN]. *)
Definition num_le (a b : number) : bool :=
  match a, b with
  | NaN, _ | _, NaN => false
  | NegInf, _ | _, PosInf => true
  | _, NegInf | PosInf, _ => false
  | Fin p, Fin q => Qle_bool p q
  end.

(** [a === b] on numbers: [NaN] is equal to nothing. *)
Definition num_eq (a b : number) : bool :=
  match a, b with
  | PosInf, PosInf | NegInf, NegInf => true
  | Fin p, Fin q => Qeq_bool p q
  | _, _ => false
  end.

Definition num_neg (a : number) : number :=
  match a with
  | NaN => NaN
  | PosInf => NegInf
  | NegInf => PosInf
  | Fin q => Fin (- q)
  end.

(** [a * b]: an infinity times zero is [NaN]. *)
Definition num_mul (a b : number) : number :=
  match a, b with
  | NaN, _ | _, NaN => NaN
  | Fin p, Fin q => Fin (p * q)
  | Fin p, i | i, Fin p =>
      match (p ?= 0)%Q with
      | Eq => NaN
      | Gt => i
      | Lt => num_neg i
      end
  | PosInf, PosInf | NegInf, NegInf => PosInf
  | PosInf, NegInf | NegInf, PosInf => NegInf
  end.


(** *** Strings.  A string is a sequence of 8-bit characters; case folding
    and white space are those of ASCII. *)

Definition code (c : ascii) : Z := Z.of_nat (nat_of_ascii c).

Definition is_space (c : ascii) : bool :=
  ((9 <=? code c) && (code c <=? 13)) || (code c =? 32).

Fixpoint trimStart (s : string) : string :=
  match s with
  | String c s' => if is_space c then trimStart s' else s
  | EmptyString => EmptyString
  end.

Definition reverse (s : string) : string :=
  string_of_list_ascii (rev (list_ascii_of_string s)).

Definition trimEnd (s : string) : string := reverse (trimStart (reverse s)).

Definition trim (s : string) : string := trimEnd (trimStart s).

Definition lower (c : ascii) : ascii :=
  if (65 <=? code c) && (code c <=? 90)
  then ascii_of_nat (nat_of_ascii c + 32)
  else c.

Fixpoint toLowerCase (s : string) : string :=
  match s with
  | String c s' => String (lower c) (toLowerCase s')
  | EmptyString => EmptyString
  end.

Definition startsWith (s p : string) : bool := prefix p s.

Definition endsWith (s p : string) : bool := prefix (reverse p) (reverse s).

(** [s.slice(n)] for [n >= 0]. *)
Fixpoint slice_from (n : nat) (s : string) : string :=
  match n, s with
  | S n', String _ s' => slice_from n' s'
  | _, _ => s
  end.

(** [s.slice(0, -1)]. *)
Definition slice_but_last (s : string) : string :=
  reverse (slice_from 1 (reverse s)).

(** [s.includes(p)]. *)
Fixpoint includes (s p : string) : bool :=
  if prefix p s then true
  else match s with
       | String _ s' => includes s' p
       | EmptyString => false
       end.

Definition is_empty (s : string) : bool :=
  match s with
  | EmptyString => true
  | String _ _ => false
  end.

(** The value of a character as a digit, whichever the radix. *)
Definition digit_value (c : ascii) : option Z :=
  if (48 <=? code c) && (code c <=? 57) then Some (code c - 48)
  else if (97 <=? code c) && (code c <=? 122) then Some (code c - 87)
  else if (65 <=? code c) && (code c <=? 90) then Some (code c - 55)
  else None.

(** The longest prefix of digits below [radix], read in that radix;
    [acc] is [None] until a first digit has been read. *)
Fixpoint parse_digits (radix : Z) (s : string) (acc : option Z) : option Z :=
  match s with
  | String c s' =>
      match digit_value c with
      | Some d =>
          if d <? radix
          then parse_digits radix s'
                 (Some (match acc with
                        | Some a => a * radix + d
                        | None => d
                        end))
          else acc
      | None => acc
      end
  | EmptyString => acc
  end.

(** [Number.parseInt(s, radix)] for radix 10 and 16; [None] is [NaN].
    The integer is kept exact (a double rounds it above 2^53). *)
Definition parseInt (s : string) (radix : Z) : option Z :=
  let s1 := trimStart s in
  let '(negative, s2) :=
    match s1 with
    | String "-" r => (true, r)
    | String "+" r => (false, r)
    | _ => (false, s1)
    end in
  let s3 :=
    if (radix =? 16) && (prefix "0x" s2 || prefix "0X" s2)
    then slice_from 2 s2 else s2 in
  option_map (fun m => if negative then - m else m)
             (parse_digits radix s3 None).

(** [String(n)] and [n.toString(16)] of an integer. *)
Definition toString10 (z : Z) : string :=
  DecimalString.NilZero.string_of_int (Z.to_int z).

Definition toString16 (z : Z) : string :=
  HexadecimalString.NilZero.string_of_int (Z.to_hex_int z).

(** [s.padStart(n, "0")]. *)
Definition padStart0 (n : nat) (s : string) : string :=
  string_of_list_ascii (repeat "0"%char (n - String.length s)) ++ s.

End JS.

(* ================================================================== *)
(** ** hidReader.js *)

Module HidReader.
Import JS.

(** *** Data *)

(** A value thrown or stored as [lastError]: [new Error(message)]. *)
Inductive js_error : Type :=
| Error (message : string).

(** A configuration field typed [string|number] that may be missing. *)
Inductive raw_value : Type :=
| RawUndefined
| RawNumber (n : number)
| RawString (s : string).

(** [BatteryConfig].  A missing property is [None] or [RawUndefined]. *)
Record BatteryConfig : Type := {
  hidPath : option string;
  vid : raw_value;
  pid : raw_value;
  pollIntervalSeconds : number;
  initDelayMs : option number;
  retryCount : option number
}.

Definition DEFAULT_VENDOR_ID : Z := 0x3151.
Definition DEFAULT_PRODUCT_ID : Z := 0x5007.
Definition ANGRY_MIAO_REPORT_ID : Z := 0xf7.
Definition DEFAULT_BUFFER_LENGTH : Z := 65.

(** [data[i] = v] on an array, within its bounds. *)
Fixpoint array_set (i : nat) (v : Z) (data : list Z) : list Z :=
  match i, data with
  | O, _ :: rest => v :: rest
  | S i', x :: rest => x :: array_set i' v rest
  | _, [] => []
  end.

(** [new Array(65).fill(0)] with [data[1] = 0xf7]. *)
Definition ANGRY_MIAO_INIT_FEATURE : list Z :=
  array_set 1 0xf7 (repeat 0 65).

(** The [path] property of an enumerated device: missing, a string, a
    Buffer (given by its UTF-8 decoding) or some other value. *)
Inductive path_value : Type :=
| PathUndefined
| PathString (s : string)
| PathBuffer (decoded : string)
| PathOther.

(** One entry of [HID.devices()]. *)
Record device_info : Type := {
  vendorId : Z;
  productId : Z;
  path : path_value;
  interface : option Z;
  interfaceNumber : option Z
}.

(** An entry of the array [getFeatureReport] returns: a finite integer, or
    anything [Number.isFinite] rejects. *)
Inductive item : Type :=
| Num (z : Z)
| NonNumber.

(** What [getFeatureReport] does: throw, or return [null]/[undefined]
    ([None]) or an array. *)
Inductive feature_reply : Type :=
| GetThrows (msg : string)
| GetReturns (data : option (list item)).

(** What node-hid does during one attempt.  A fault is the message of the
    exception thrown.  [close_fault k] is what the call of [close] that
    follows [k] earlier ones on the same handle throws. *)
Record attempt_io : Type := {
  open_fault : option string;
  send_fault : option string;
  get_reply : feature_reply;
  close_fault : nat -> option string
}.

(** The environment of one read: what [HID.devices()] does and what the
    device does at each attempt, counted from 1. *)
Record hid_env : Type := {
  enumeration : string + list device_info;
  session : nat -> attempt_io
}.

(** The calls made to node-hid and to the timer, in order. *)
Inductive hid_event : Type :=
| EvEnumerate
| EvOpen (path : string) (ok : bool)
| EvSend (handle : nat) (data : list Z) (ok : bool)
| EvWait (ms : number) (timer : bool)
| EvGet (handle : nat) (reportId len : Z)
| EvClose (handle : nat) (threw : bool).

(** The handles opened and not yet closed (a handle is named by the attempt
    that opened it) and the log of calls. *)
Record hid_state : Type := {
  live : list nat;
  trace : list hid_event
}.

Definition initial_state : hid_state := {| live := []; trace := [] |}.

Definition log (e : hid_event) (st : hid_state) : hid_state :=
  {| live := live st; trace := (trace st ++ [e])%list |}.

(** What one turn of the retry loop ends with: [return] or [continue]
    after [lastError] was assigned. *)
Inductive attempt_result : Type :=
| Return (value : Z)
| Continue (lastError : js_error).

(** How the promise of [readBatteryPercentage] settles. *)
Inductive outcome : Type :=
| Resolved (value : Z)
| Rejected (error : js_error).

(** *** Functions *)

Definition parseConfigInt (raw : raw_value) : option Z :=
  match raw with
  | RawUndefined => None
  | RawNumber (Fin q) => Some (Qtrunc q)
  | RawNumber _ => None
  | RawString s =>
      let value := toLowerCase (trim s) in
      if is_empty value then None
      else if startsWith value "0x" then parseInt (slice_from 2 value) 16
      else if endsWith value "h" then parseInt (slice_but_last value) 16
      else parseInt value 10
  end.

(** [wait(ms)]: a timer is set only when [ms > 0]. *)
Definition wait (ms : number) (st : hid_state) : hid_state :=
  log (EvWait ms (negb (num_le ms (of_Z 0)))) st.

Definition normalisePath (p : path_value) : option string :=
  match p with
  | PathUndefined => None
  | PathString s => if is_empty s then None else Some s
  | PathBuffer decoded => Some decoded
  | PathOther => None
  end.

(** The loop of [findDevicePath] that fills [matches]. *)
Fixpoint collect_matches (vid pid : Z) (devices : list device_info)
  : list (device_info * string) :=
  match devices with
  | [] => []
  | info :: rest =>
      if negb (vendorId info =? vid) || negb (productId info =? pid)
      then collect_matches vid pid rest
      else match normalisePath (path info) with
           | None => collect_matches vid pid rest
           | Some devicePath =>
               if is_empty devicePath then collect_matches vid pid rest
               else (info, devicePath) :: collect_matches vid pid rest
           end
  end.

(** [info.interface ?? info.interfaceNumber] *)
Definition iface_of (info : device_info) : option Z :=
  match interface info with
  | Some i => Some i
  | None => interfaceNumber info
  end.

Definition is_exact_interface (m : device_info * string) : bool :=
  match iface_of (fst m) with
  | Some i => i =? 2
  | None => false
  end.

Definition is_preferred_path (m : device_info * string) : bool :=
  includes (toLowerCase (snd m)) "mi_02".

(** The selection among [matches]. *)
Definition select_match (matches : list (device_info * string))
  : option string :=
  match matches with
  | [] => None
  | first :: _ =>
      match find is_exact_interface matches with
      | Some exactInterface => Some (snd exactInterface)
      | None =>
          match find is_preferred_path matches with
          | Some preferredPath => Some (snd preferredPath)
          | None => Some (snd first)
          end
      end
  end.

(** [findDevicePath]: the left side is the exception it throws. *)
Definition findDevicePath (env : hid_env) (vid pid : Z) (st : hid_state)
  : (js_error + option string) * hid_state :=
  let st1 := log EvEnumerate st in
  match enumeration env with
  | inl msg => (inl (Error ("Unable to enumerate HID devices: " ++ msg)), st1)
  | inr devices => (inr (select_match (collect_matches vid pid devices)), st1)
  end.

(** How many times [close] was already called on a handle. *)
Definition closes_of (h : nat) (tr : list hid_event) : nat :=
  List.length
    (filter (fun e => match e with
                      | EvClose h' _ => Nat.eqb h h'
                      | _ => false
                      end) tr).

Definition remove_handle (h : nat) (l : list nat) : list nat :=
  filter (fun h' => negb (Nat.eqb h h')) l.

(** [safeClose(device)]: nothing without a device; otherwise [close()] is
    called and what it throws is dropped. *)
Definition safeClose (io : attempt_io) (device : option nat)
  (st : hid_state) : hid_state :=
  match device with
  | None => st
  | Some h =>
      let threw :=
        match close_fault io (closes_of h (trace st)) with
        | Some _ => true
        | None => false
        end in
      {| live := remove_handle h (live st);
         trace := (trace st ++ [EvClose h threw])%list |}
  end.

Definition hex_digit (d : Z) : string :=
  String (ascii_of_nat (Z.to_nat (if d <? 10 then 48 + d else 87 + d)))
         EmptyString.

(** One byte of [Buffer.from(data)]: the entry modulo 256, zero for what is
    not a number. *)
Definition to_uint8 (x : item) : Z :=
  match x with
  | Num z => Z.land z 255
  | NonNumber => 0
  end.

(** [Buffer.from(data).toString("hex")] *)
Fixpoint hex_of (data : list item) : string :=
  match data with
  | [] => ""
  | x :: rest =>
      hex_digit (Z.shiftr (to_uint8 x) 4) ++ hex_digit (Z.land (to_uint8 x) 15)
      ++ hex_of rest
  end.

(** [!data || data.length < 4 || data[0] !== ANGRY_MIAO_REPORT_ID] *)
Definition report_rejected (data : option (list item)) : bool :=
  match data with
  | None => true
  | Some d =>
      (Z.of_nat (List.length d) <? 4)
      || match nth 0 d NonNumber with
         | Num z => negb (z =? ANGRY_MIAO_REPORT_ID)
         | NonNumber => true
         end
  end.

Definition payload_of (data : option (list item)) : string :=
  match data with
  | Some d => hex_of d
  | None => "null"
  end.

(** [Math.min(100, Math.max(0, battery))] *)
Definition clamp (battery : Z) : Z := Z.min 100 (Z.max 0 battery).

Definition opened (path : string) (h : nat) (st : hid_state) : hid_state :=
  {| live := h :: live st;
     trace := (trace st ++ [EvOpen path true])%list |}.

(** The body of the retry loop for attempt number [attempt]. *)
Definition run_attempt (targetPath : string) (initDelay : number)
  (attempt : nat) (io : attempt_io) (st : hid_state)
  : attempt_result * hid_state :=
  match open_fault io with
  | Some msg =>
      (Continue (Error ("Unable to open HID device: " ++ msg)),
       log (EvOpen targetPath false) st)
  | None =>
      let device := Some attempt in
      let st := opened targetPath attempt st in
      match send_fault io with
      | Some msg =>
          let st := log (EvSend attempt ANGRY_MIAO_INIT_FEATURE false) st in
          let st := safeClose io device st in
          let st := wait initDelay st in
          (Continue
             (Error ("Failed to send init feature (attempt "
                     ++ toString10 (Z.of_nat attempt) ++ "): " ++ msg)),
           st)
      | None =>
          let st := log (EvSend attempt ANGRY_MIAO_INIT_FEATURE true) st in
          let st := wait initDelay st in
          let st :=
            log (EvGet attempt ANGRY_MIAO_REPORT_ID DEFAULT_BUFFER_LENGTH) st in
          match get_reply io with
          | GetThrows msg =>
              (* catch, then finally *)
              let st := safeClose io device st in
              (Continue
                 (Error ("Failed to read feature report (attempt "
                         ++ toString10 (Z.of_nat attempt) ++ "): " ++ msg)),
               st)
          | GetReturns data =>
              if report_rejected data then
                let payload := payload_of data in
                let st := safeClose io device st in
                (* continue, through finally *)
                let st := safeClose io device st in
                (Continue (Error ("Unexpected feature report: " ++ payload)),
                 st)
              else
                let st := safeClose io device st in
                match nth 3 (match data with Some d => d | None => [] end)
                          NonNumber with
                | NonNumber =>
                    (* continue, through finally *)
                    let st := safeClose io device st in
                    (Continue (Error "Battery value missing in report"), st)
                | Num battery =>
                    (* return, through finally *)
                    let st := safeClose io device st in
                    (Return (clamp battery), st)
                end
          end
      end
  end.

(** [throw lastError || new Error("Unable to read battery percentage")] *)
Definition final_error (lastError : option js_error) : js_error :=
  match lastError with
  | Some e => e
  | None => Error "Unable to read battery percentage"
  end.

(** The retry loop [for (attempt = ...; attempt <= retryCount; attempt += 1)].
    [fuel] bounds the number of turns; [None] is a loop that has not ended
    within it. *)
Fixpoint retry_loop (fuel : nat) (env : hid_env) (targetPath : string)
  (initDelay retryCount : number) (attempt : nat)
  (lastError : option js_error) (st : hid_state)
  : option (outcome * hid_state) :=
  match fuel with
  | O => None
  | S fuel' =>
      if num_le (of_nat attempt) retryCount then
        match run_attempt targetPath initDelay attempt (session env attempt) st
        with
        | (Return value, st') => Some (Resolved value, st')
        | (Continue e, st') =>
            retry_loop fuel' env targetPath initDelay retryCount
                       (S attempt) (Some e) st'
        end
      else Some (Rejected (final_error lastError), st)
  end.

Definition normalised_retryCount (config : BatteryConfig) : number :=
  Math_max (of_Z 1) (Math_trunc (or_else (retryCount config) (of_Z 1))).

Definition normalised_initDelay (config : BatteryConfig) : number :=
  Math_max (of_Z 0) (Math_trunc (or_else (initDelayMs config) (of_Z 0))).

Definition target_vid (config : BatteryConfig) : Z :=
  match parseConfigInt (vid config) with
  | Some v => v
  | None => DEFAULT_VENDOR_ID
  end.

Definition target_pid (config : BatteryConfig) : Z :=
  match parseConfigInt (pid config) with
  | Some v => v
  | None => DEFAULT_PRODUCT_ID
  end.

(** [(config.hidPath || "").trim()] *)
Definition pinned_path (config : BatteryConfig) : string :=
  trim (match hidPath config with
        | Some s => s
        | None => ""
        end).

Definition device_not_found (targetVid targetPid : Z) : js_error :=
  Error ("Device not found (VID 0x" ++ padStart0 4 (toString16 targetVid)
         ++ ", PID 0x" ++ padStart0 4 (toString16 targetPid) ++ ")").

(** The resolution of [targetPath]: the left side is the exception thrown
    before the loop. *)
Definition resolve_path (config : BatteryConfig) (env : hid_env)
  (st : hid_state) : (js_error + string) * hid_state :=
  let targetPath := pinned_path config in
  if is_empty targetPath then
    match findDevicePath env (target_vid config) (target_pid config) st with
    | (inl e, st') => (inl e, st')
    | (inr None, st') =>
        (inl (device_not_found (target_vid config) (target_pid config)), st')
    | (inr (Some resolved), st') => (inr resolved, st')
    end
  else (inr targetPath, st).

Definition readBatteryPercentage (fuel : nat) (config : BatteryConfig)
  (env : hid_env) : option (outcome * hid_state) :=
  let retryCount := normalised_retryCount config in
  let initDelay := normalised_initDelay config in
  match resolve_path config env initial_state with
  | (inl e, st) => Some (Rejected e, st)
  | (inr targetPath, st) =>
      retry_loop fuel env targetPath initDelay retryCount 1 None st
  end.

(** The number of attempts a log shows: one [new HID.HID] per attempt. *)
Definition attempts_made (tr : list hid_event) : nat :=
  List.length
    (filter (fun e => match e with
                      | EvOpen _ _ => true
                      | _ => false
                      end) tr).

End HidReader.

(* ================================================================== *)
(** ** plugin.js *)

Module Plugin.
Import JS HidReader.

(** *** Data *)

Definition BATTERY_CID : string := "com.hankun.mousebattery.status".
Definition MIN_POLL_INTERVAL_MS : Z := 5000.

Definition DEFAULT_CONFIG : BatteryConfig := {|
  hidPath := Some "";
  vid := RawString "";
  pid := RawString "";
  pollIntervalSeconds := of_Z 30;
  initDelayMs := Some (of_Z 50);
  retryCount := Some (of_Z 3)
|}.

(** The object a config event delivers, field by field: a text field is a
    string or not ([None]); a numeric field is a number or [undefined]
    ([None]).  Numeric strings and numeric ids are left out. *)
Record raw_config : Type := {
  raw_hidPath : option string;
  raw_vid : option string;
  raw_pid : option string;
  raw_pollIntervalSeconds : option number;
  raw_initDelayMs : option number;
  raw_retryCount : option number
}.

(** A key of the device: its component id and its uid. *)
Record key : Type := {
  cid : string;
  uid : string
}.

(** The cached status, a union tagged by [kind]. *)
Inductive status : Type :=
| Unknown (label : string)
| Value (value : Z) (label : string)
| Failure (label detail : string).

Inductive status_kind : Type :=
| kind_unknown
| kind_value
| kind_error.

Definition kind (s : status) : status_kind :=
  match s with
  | Unknown _ => kind_unknown
  | Value _ _ => kind_value
  | Failure _ _ => kind_error
  end.

Definition kind_eqb (a b : status_kind) : bool :=
  match a, b with
  | kind_unknown, kind_unknown
  | kind_value, kind_value
  | kind_error, kind_error => true
  | _, _ => false
  end.

(** What the plugin does to the outside, in order. *)
Inductive effect : Type :=
| SetInterval (ms : number)
| ClearInterval (ms : number)
| ClearTimeout
| ReadStarted (config : BatteryConfig)
| Draw (serialNumber uid title titleColor : string).

(** The module-level variables.  [pollTimer] is the running interval timer,
    known by the delay it was created with.  [awaiting] is the call of
    [pollAndUpdate] suspended at its [await], known by its [forceRedraw];
    [effects] is the log. *)
Record plugin_state : Type := {
  pluginConfig : BatteryConfig;
  batteryKeys : list (string * (string * key));
  pollTimer : option number;
  pollIntervalMs : number;
  pollInFlight : bool;
  latestStatus : status;
  configRetryTimer : bool;
  configRetryAttempts : nat;
  pendingForcedRefresh : bool;
  awaiting : option bool;
  effects : list effect
}.

(** The events the plugin reacts to. *)
Inductive event : Type :=
| TimerTick
| ConfigUpdated (rawConfig : option raw_config)
| Alive (serialNumber : string) (keys : list key)
| Data (serialNumber : string) (data_key : option key)
| Destroy (serialNumber : option string)
| ReadSettled (result : outcome).

(** *** State updates *)

Definition emit (e : effect) (st : plugin_state) : plugin_state :=
  {| pluginConfig := pluginConfig st; batteryKeys := batteryKeys st;
     pollTimer := pollTimer st; pollIntervalMs := pollIntervalMs st;
     pollInFlight := pollInFlight st; latestStatus := latestStatus st;
     configRetryTimer := configRetryTimer st;
     configRetryAttempts := configRetryAttempts st;
     pendingForcedRefresh := pendingForcedRefresh st;
     awaiting := awaiting st; effects := (effects st ++ [e])%list |}.

Definition set_pluginConfig (c : BatteryConfig) (st : plugin_state) :=
  {| pluginConfig := c; batteryKeys := batteryKeys st;
     pollTimer := pollTimer st; pollIntervalMs := pollIntervalMs st;
     pollInFlight := pollInFlight st; latestStatus := latestStatus st;
     configRetryTimer := configRetryTimer st;
     configRetryAttempts := configRetryAttempts st;
     pendingForcedRefresh := pendingForcedRefresh st;
     awaiting := awaiting st; effects := effects st |}.

Definition set_batteryKeys (m : list (string * (string * key)))
  (st : plugin_state) :=
  {| pluginConfig := pluginConfig st; batteryKeys := m;
     pollTimer := pollTimer st; pollIntervalMs := pollIntervalMs st;
     pollInFlight := pollInFlight st; latestStatus := latestStatus st;
     configRetryTimer := configRetryTimer st;
     configRetryAttempts := configRetryAttempts st;
     pendingForcedRefresh := pendingForcedRefresh st;
     awaiting := awaiting st; effects := effects st |}.

Definition set_pollTimer (t : option number) (st : plugin_state) :=
  {| pluginConfig := pluginConfig st; batteryKeys := batteryKeys st;
     pollTimer := t; pollIntervalMs := pollIntervalMs st;
     pollInFlight := pollInFlight st; latestStatus := latestStatus st;
     configRetryTimer := configRetryTimer st;
     configRetryAttempts := configRetryAttempts st;
     pendingForcedRefresh := pendingForcedRefresh st;
     awaiting := awaiting st; effects := effects st |}.

Definition set_pollIntervalMs (ms : number) (st : plugin_state) :=
  {| pluginConfig := pluginConfig st; batteryKeys := batteryKeys st;
     pollTimer := pollTimer st; pollIntervalMs := ms;
     pollInFlight := pollInFlight st; latestStatus := latestStatus st;
     configRetryTimer := configRetryTimer st;
     configRetryAttempts := configRetryAttempts st;
     pendingForcedRefresh := pendingForcedRefresh st;
     awaiting := awaiting st; effects := effects st |}.

(** [pollInFlight = b], with the suspended call that goes with it. *)
Definition set_pollInFlight (b : bool) (k : option bool)
  (st : plugin_state) :=
  {| pluginConfig := pluginConfig st; batteryKeys := batteryKeys st;
     pollTimer := pollTimer st; pollIntervalMs := pollIntervalMs st;
     pollInFlight := b; latestStatus := latestStatus st;
     configRetryTimer := configRetryTimer st;
     configRetryAttempts := configRetryAttempts st;
     pendingForcedRefresh := pendingForcedRefresh st;
     awaiting := k; effects := effects st |}.

Definition set_latestStatus (s : status) (st : plugin_state) :=
  {| pluginConfig := pluginConfig st; batteryKeys := batteryKeys st;
     pollTimer := pollTimer st; pollIntervalMs := pollIntervalMs st;
     pollInFlight := pollInFlight st; latestStatus := s;
     configRetryTimer := configRetryTimer st;
     configRetryAttempts := configRetryAttempts st;
     pendingForcedRefresh := pendingForcedRefresh st;
     awaiting := awaiting st; effects := effects st |}.

Definition set_configRetry (t : bool) (n : nat) (st : plugin_state) :=
  {| pluginConfig := pluginConfig st; batteryKeys := batteryKeys st;
     pollTimer := pollTimer st; pollIntervalMs := pollIntervalMs st;
     pollInFlight := pollInFlight st; latestStatus := latestStatus st;
     configRetryTimer := t; configRetryAttempts := n;
     pendingForcedRefresh := pendingForcedRefresh st;
     awaiting := awaiting st; effects := effects st |}.

Definition set_pendingForcedRefresh (b : bool) (st : plugin_state) :=
  {| pluginConfig := pluginConfig st; batteryKeys := batteryKeys st;
     pollTimer := pollTimer st; pollIntervalMs := pollIntervalMs st;
     pollInFlight := pollInFlight st; latestStatus := latestStatus st;
     configRetryTimer := configRetryTimer st;
     configRetryAttempts := configRetryAttempts st;
     pendingForcedRefresh := b;
     awaiting := awaiting st; effects := effects st |}.

(** *** The [Map] of keys, in insertion order *)

Fixpoint map_has {V} (k : string) (m : list (string * V)) : bool :=
  match m with
  | [] => false
  | (k', _) :: rest => String.eqb k k' || map_has k rest
  end.

(** [m.set(k, v)]: a present key keeps its place. *)
Fixpoint map_set {V} (k : string) (v : V) (m : list (string * V))
  : list (string * V) :=
  match m with
  | [] => [(k, v)]
  | (k', v') :: rest =>
      if String.eqb k k' then (k, v) :: rest
      else (k', v') :: map_set k v rest
  end.

Definition map_size {V} (m : list (string * V)) : nat := List.length m.

(** *** Functions *)

Definition Math_floor (n : number) : number :=
  match n with
  | Fin q => of_Z (Qfloor q)
  | _ => n
  end.

Definition is_NaN (n : number) : bool :=
  match n with
  | NaN => true
  | _ => false
  end.

(** [Number(x)] of a number or [undefined]. *)
Definition Number_of (x : option number) : number :=
  match x with
  | Some n => n
  | None => NaN
  end.

Definition buildConfig (raw : option raw_config) : BatteryConfig :=
  match raw with
  | None => DEFAULT_CONFIG
  | Some raw =>
      let pollValue := Number_of (raw_pollIntervalSeconds raw) in
      {| hidPath :=
           match raw_hidPath raw with
           | Some s => Some (trim s)
           | None => hidPath DEFAULT_CONFIG
           end;
         vid :=
           match raw_vid raw with
           | Some s => RawString (trim s)
           | None => vid DEFAULT_CONFIG
           end;
         pid :=
           match raw_pid raw with
           | Some s => RawString (trim s)
           | None => pid DEFAULT_CONFIG
           end;
         pollIntervalSeconds :=
           if negb (is_NaN pollValue)
              && negb (num_le pollValue (of_Z 0))
           then pollValue
           else pollIntervalSeconds DEFAULT_CONFIG;
         initDelayMs :=
           match raw_initDelayMs raw with
           | Some parsedDelay =>
               if negb (is_NaN parsedDelay) && num_le (of_Z 0) parsedDelay
               then Some parsedDelay
               else initDelayMs DEFAULT_CONFIG
           | None => initDelayMs DEFAULT_CONFIG
           end;
         retryCount :=
           match raw_retryCount raw with
           | Some parsedRetry =>
               if negb (is_NaN parsedRetry) && num_le (of_Z 1) parsedRetry
               then Some (Math_floor parsedRetry)
               else retryCount DEFAULT_CONFIG
           | None => retryCount DEFAULT_CONFIG
           end |}
  end.

Definition makeKeyId (serialNumber uid : string) : string :=
  serialNumber ++ ":" ++ uid.

Definition getPollIntervalMs (config : BatteryConfig) : number :=
  Math_max (of_Z MIN_POLL_INTERVAL_MS)
           (Math_round (num_mul (pollIntervalSeconds config) (of_Z 1000))).

Definition statusesEqual (a b : status) : bool :=
  if negb (kind_eqb (kind a) (kind b)) then false
  else
    match a, b with
    | Value va _, Value vb _ => va =? vb
    | Failure la da, Failure lb db => String.eqb la lb && String.eqb da db
    | _, _ => true
    end.

Definition formatTitle (s : status) : string :=
  match s with
  | Value v _ => toString10 v ++ "%"
  | Failure _ _ => "ERR"
  | Unknown _ => "--"
  end.

Definition drawKey (serialNumber : string) (k : key) (s : status)
  (st : plugin_state) : plugin_state :=
  emit (Draw serialNumber (uid k) (formatTitle s)
             (match s with
              | Failure _ _ => "#FF5555"
              | _ => "#FFFFFF"
              end)) st.

Definition renderAllKeys (st : plugin_state) : plugin_state :=
  fold_left (fun s entry => drawKey (fst (snd entry)) (snd (snd entry))
                                    (latestStatus st) s)
            (batteryKeys st) st.

(** [pollAndUpdate(forceRedraw, force)] up to its [await]: dropped or noted
    while a poll is in flight, nothing without keys, else a read starts. *)
Definition pollAndUpdate (forceRedraw force : bool) (st : plugin_state)
  : plugin_state :=
  if pollInFlight st then
    if force then set_pendingForcedRefresh true st else st
  else if (map_size (batteryKeys st) =? 0)%nat then st
  else emit (ReadStarted (pluginConfig st))
            (set_pollInFlight true (Some forceRedraw) st).

(** The status built from the settled read. *)
Definition status_of (result : outcome) : status :=
  match result with
  | Resolved v => Value v (toString10 v ++ "%")
  | Rejected (Error message) => Failure "error" message
  end.

(** [pollAndUpdate] from its [await] on: the [try] or [catch] branch, then
    [finally].  [plugin.draw] and the logger are taken not to throw. *)
Definition pollAndUpdate_resume (result : outcome) (st : plugin_state)
  : plugin_state :=
  match awaiting st with
  | None => st
  | Some forceRedraw =>
      let status := status_of result in
      let st :=
        if negb (statusesEqual status (latestStatus st)) || forceRedraw
        then renderAllKeys (set_latestStatus status st)
        else st in
      let st := set_pollInFlight false None st in
      if pendingForcedRefresh st
      then pollAndUpdate true false (set_pendingForcedRefresh false st)
      else st
  end.

Definition stopPolling (st : plugin_state) : plugin_state :=
  match pollTimer st with
  | Some t => set_pollTimer None (emit (ClearInterval t) st)
  | None => st
  end.

Definition ensurePolling (st : plugin_state) : plugin_state :=
  if (map_size (batteryKeys st) =? 0)%nat then stopPolling st
  else
    let desiredInterval := getPollIntervalMs (pluginConfig st) in
    if match pollTimer st with Some _ => true | None => false end
       && num_eq (pollIntervalMs st) desiredInterval
    then st
    else
      let st :=
        match pollTimer st with
        | Some t => emit (ClearInterval t) st
        | None => st
        end in
      let st := set_pollIntervalMs desiredInterval st in
      let st :=
        set_pollTimer (Some (pollIntervalMs st))
                      (emit (SetInterval (pollIntervalMs st)) st) in
      pollAndUpdate true false st.

(** The handler of [plugin.config.updated]. *)
Definition on_config_updated (rawConfig : option raw_config)
  (st : plugin_state) : plugin_state :=
  let st := set_pluginConfig (buildConfig rawConfig) st in
  let st := set_pollIntervalMs (getPollIntervalMs (pluginConfig st)) st in
  let st :=
    if configRetryTimer st
    then set_configRetry false 0 (emit ClearTimeout st)
    else set_configRetry false 0 st in
  ensurePolling st.

(** The handler of [plugin.alive]. *)
Definition on_alive (serialNumber : string) (keys : list key)
  (st : plugin_state) : plugin_state :=
  let st :=
    fold_left
      (fun s k =>
         if String.eqb (cid k) BATTERY_CID then
           drawKey serialNumber k (latestStatus s)
             (set_batteryKeys
                (map_set (makeKeyId serialNumber (uid k)) (serialNumber, k)
                         (batteryKeys s)) s)
         else s)
      keys st in
  ensurePolling st.

(** The handler of [plugin.data]. *)
Definition on_data (serialNumber : string) (data_key : option key)
  (st : plugin_state) : plugin_state :=
  match data_key with
  | None => st
  | Some k =>
      if negb (String.eqb (cid k) BATTERY_CID) then st
      else
        let keyId := makeKeyId serialNumber (uid k) in
        let st :=
          if negb (map_has keyId (batteryKeys st))
          then set_batteryKeys
                 (map_set keyId (serialNumber, k) (batteryKeys st)) st
          else st in
        pollAndUpdate true true st
  end.

(** The handler of [plugin.destroy]. *)
Definition on_destroy (serialNumber : option string) (st : plugin_state)
  : plugin_state :=
  match serialNumber with
  | None => st
  | Some serial =>
      if is_empty serial then st
      else
        let st :=
          set_batteryKeys
            (filter (fun entry => negb (String.eqb (fst (snd entry)) serial))
                    (batteryKeys st)) st in
        if (map_size (batteryKeys st) =? 0)%nat then stopPolling st else st
  end.

(** The state when the module is loaded. *)
Definition initial : plugin_state := {|
  pluginConfig := buildConfig None;
  batteryKeys := [];
  pollTimer := None;
  pollIntervalMs := num_mul (pollIntervalSeconds (buildConfig None))
                            (of_Z 1000);
  pollInFlight := false;
  latestStatus := Unknown "waiting";
  configRetryTimer := false;
  configRetryAttempts := 0;
  pendingForcedRefresh := false;
  awaiting := None;
  effects := []
|}.

(** One event.  The interval callback runs only while a timer exists. *)
Definition step (e : event) (st : plugin_state) : plugin_state :=
  match e with
  | TimerTick =>
      match pollTimer st with
      | Some _ => pollAndUpdate false false st
      | None => st
      end
  | ConfigUpdated rawConfig => on_config_updated rawConfig st
  | Alive serialNumber keys => on_alive serialNumber keys st
  | Data serialNumber data_key => on_data serialNumber data_key st
  | Destroy serialNumber => on_destroy serialNumber st
  | ReadSettled result => pollAndUpdate_resume result st
  end.

Definition run (es : list event) (st : plugin_state) : plugin_state :=
  fold_left (fun s e => step e s) es st.

(** The number of reads started so far. *)
Definition polls_started (st : plugin_state) : nat :=
  List.length
    (filter (fun e => match e with
                      | ReadStarted _ => true
                      | _ => false
                      end) (effects st)).

(** The timer calls in a log. *)
Definition timer_calls (l : list effect) : list effect :=
  filter (fun e => match e with
                   | SetInterval _ | ClearInterval _ => true
                   | _ => false
                   end) l.

(** A plain tick or a request for a refresh. *)
Definition is_trigger (e : event) : bool :=
  match e with
  | TimerTick | Data _ _ => true
  | _ => false
  end.

(** A request that reaches [pollAndUpdate(true, true)]. *)
Definition is_forced_request (e : event) : bool :=
  match e with
  | Data _ (Some k) => String.eqb (cid k) BATTERY_CID
  | _ => false
  end.

End Plugin.

(* ================================================================== *)
(** ** Vocabulary of the properties *)

Import JS HidReader Plugin.

(** What attempt number [attempt] ends with when the device behaves as
    [io]: the first component of the loop body, run from the empty log. *)
Definition attempt_verdict (attempt : nat) (io : attempt_io)
  : attempt_result :=
  fst (run_attempt "" (of_Z 0) attempt io initial_state).

(** Two scripts of one attempt that differ at most in what [close] throws. *)
Definition same_but_close (io io' : attempt_io) : Prop :=
  open_fault io = open_fault io'
  /\ send_fault io = send_fault io'
  /\ get_reply io = get_reply io'.

(** A configuration whose [retryCount] is the integer [N]. *)
Definition retryCount_is (config : BatteryConfig) (N : nat) : Prop :=
  retryCount config = Some (of_nat N).

(** The configuration with a pinned path and the given numbers. *)
Definition pinned_config (p : string) (delay retries : option number)
  : BatteryConfig :=
  {| hidPath := Some p; vid := RawUndefined; pid := RawUndefined;
     pollIntervalSeconds := of_Z 30;
     initDelayMs := delay; retryCount := retries |}.

(** Scripts of one attempt, for the examples. *)
Definition quiet_close : nat -> option string := fun _ => None.

Definition io_report (data : option (list item)) : attempt_io :=
  {| open_fault := None; send_fault := None;
     get_reply := GetReturns data; close_fault := quiet_close |}.

Definition io_open_fails (msg : string) : attempt_io :=
  {| open_fault := Some msg; send_fault := None;
     get_reply := GetReturns None; close_fault := quiet_close |}.

Definition io_send_fails (msg : string) : attempt_io :=
  {| open_fault := None; send_fault := Some msg;
     get_reply := GetReturns None; close_fault := quiet_close |}.

Definition io_get_throws (msg : string) : attempt_io :=
  {| open_fault := None; send_fault := None;
     get_reply := GetThrows msg; close_fault := quiet_close |}.

(** A report with the battery byte [b] at offset 3. *)
Definition good_report (b : Z) : list item :=
  [Num 0xf7; Num 0; Num 1; Num b; Num 0].

(** A read pinned to a path with three attempts allowed. *)
Definition example_config : BatteryConfig :=
  pinned_config "/dev/hidraw0" (Some (of_Z 50)) (Some (of_nat 3)).

(** The device cannot be opened, then answers a short report, then a
    report with the byte 250 at offset 3. *)
Definition recovering_env : hid_env :=
  {| enumeration := inr [];
     session := fun attempt =>
       match attempt with
       | 1%nat => io_open_fails "cannot open device"
       | 2%nat => io_report (Some [Num 0xf7; Num 0; Num 9])
       | _ => io_report (Some (good_report 250))
       end |}.

(** The device fails in a different way at each attempt. *)
Definition failing_env : hid_env :=
  {| enumeration := inr [];
     session := fun attempt =>
       match attempt with
       | 1%nat => io_open_fails "busy"
       | 2%nat => io_send_fails "stall"
       | _ => io_get_throws "timeout"
       end |}.


(** No pinned path, [retryCount] zero and an infinite delay. *)
Definition unpinned_config : BatteryConfig :=
  {| hidPath := Some ""; vid := RawString ""; pid := RawString "";
     pollIntervalSeconds := of_Z 30;
     initDelayMs := Some PosInf; retryCount := Some (of_Z 0) |}.

(** No HID device is plugged in. *)
Definition empty_env : hid_env :=
  {| enumeration := inr [];
     session := fun _ => io_report (Some (good_report 57)) |}.

(** *** Device selection, in the words of the specification *)

(** A device with exactly the requested ids. *)
Definition ids_match (vid pid : Z) (info : device_info) : bool :=
  (vendorId info =? vid) && (productId info =? pid).

(** The path of a device as text; empty when there is none. *)
Definition path_text (info : device_info) : string :=
  match path info with
  | PathString s => s
  | PathBuffer decoded => decoded
  | PathUndefined | PathOther => ""
  end.

(** A device whose path is a non-empty text. *)
Definition has_path (info : device_info) : bool :=
  match path info with
  | PathString s => negb (is_empty s)
  | PathBuffer decoded => negb (is_empty decoded)
  | PathUndefined | PathOther => false
  end.

Definition on_interface_2 (info : device_info) : bool :=
  match iface_of info with
  | Some i => i =? 2
  | None => false
  end.

Definition path_has_mi_02 (info : device_info) : bool :=
  includes (toLowerCase (path_text info)) "mi_02".

(** The selection policy: nothing without a candidate; else the path of a
    candidate on interface 2 if there is one, else of a candidate whose
    path contains "mi_02" if there is one, else of the first candidate. *)
Definition selected_by_policy (candidates : list device_info)
  (result : option string) : Prop :=
  match candidates with
  | [] => result = None
  | first :: _ =>
      exists c,
        In c candidates
        /\ result = Some (path_text c)
        /\ (if existsb on_interface_2 candidates then on_interface_2 c = true
            else if existsb path_has_mi_02 candidates
                 then path_has_mi_02 c = true
                 else c = first)
  end.

(** An enumeration with two interfaces of the mouse: interface 2 without a
    path, and interface 0 with one. *)
Definition pathless_interface_2 : device_info :=
  {| vendorId := 0x3151; productId := 0x5007; path := PathString "";
     interface := Some 2; interfaceNumber := None |}.

Definition interface_0 : device_info :=
  {| vendorId := 0x3151; productId := 0x5007;
     path := PathString "/dev/hidraw1";
     interface := Some 0; interfaceNumber := None |}.

Definition two_interfaces_env : hid_env :=
  {| enumeration := inr [pathless_interface_2; interface_0];
     session := fun _ => io_report (Some (good_report 57)) |}.

(** An enumeration of the three interfaces of the mouse on Windows, next
    to another device. *)
Definition windows_env : hid_env :=
  {| enumeration :=
       inr [ {| vendorId := 0x046d; productId := 0xc52b;
                path := PathString "\\?\HID#VID_046D&PID_C52B&MI_02#1";
                interface := Some 2; interfaceNumber := None |};
             {| vendorId := 0x3151; productId := 0x5007;
                path := PathString "\\?\HID#VID_3151&PID_5007&MI_00#7";
                interface := None; interfaceNumber := None |};
             {| vendorId := 0x3151; productId := 0x5007;
                path := PathString "\\?\HID#VID_3151&PID_5007&MI_02#8";
                interface := None; interfaceNumber := None |};
             {| vendorId := 0x3151; productId := 0x5007;
                path := PathString "\\?\HID#VID_3151&PID_5007&MI_01#9";
                interface := None; interfaceNumber := Some 1 |} ];
     session := fun _ => io_report (Some (good_report 57)) |}.

(** *** The scheduler *)

(** Two states that differ at most in the keys drawn so far. *)
Definition same_but_draws (a b : plugin_state) : Prop :=
  pluginConfig a = pluginConfig b
  /\ batteryKeys a = batteryKeys b
  /\ pollTimer a = pollTimer b
  /\ pollIntervalMs a = pollIntervalMs b
  /\ pollInFlight a = pollInFlight b
  /\ latestStatus a = latestStatus b
  /\ pendingForcedRefresh a = pendingForcedRefresh b
  /\ awaiting a = awaiting b
  /\ polls_started a = polls_started b
  /\ timer_calls (effects a) = timer_calls (effects b).

(** The battery key of a device. *)
Definition battery_key : key := {| cid := BATTERY_CID; uid := "7" |}.

(** A config event that only sets the poll interval, in seconds. *)
Definition raw_poll (seconds : Z) : raw_config :=
  {| raw_hidPath := None; raw_vid := None; raw_pid := None;
     raw_pollIntervalSeconds := Some (of_Z seconds);
     raw_initDelayMs := None; raw_retryCount := None |}.

(** The plugin with one key shown and a poll in flight: the state after
    the device reported its keys. *)
Definition first_poll_in_flight : plugin_state :=
  run [Alive "FLEXBAR-1" [battery_key]] initial.

(** The plugin polling every 30 seconds, no poll in flight. *)
Definition polling_every_30s : plugin_state :=
  run [Alive "FLEXBAR-1" [battery_key]; ReadSettled (Resolved 57)] initial.

(** The three variables that guard re-entrancy. *)
Definition guard (st : plugin_state) : bool * option bool * bool :=
  (pollInFlight st, awaiting st, pendingForcedRefresh st).

(** What holds of them in every reachable state: a poll is in flight
    exactly when a call of [pollAndUpdate] is suspended, and the flag is
    set only while a poll is in flight. *)
Definition guard_ok (g : bool * option bool * bool) : Prop :=
  match g with
  | (true, Some _, _) => True
  | (false, None, false) => True
  | _ => False
  end.

(** The cases of the loop body, in the order of the source. *)
Ltac attempt_cases io :=
  unfold run_attempt;
  destruct (open_fault io) as [?msg|];
  [|destruct (send_fault io) as [?msg|];
    [|destruct (get_reply io) as [?msg|?data];
      [|destruct (report_rejected _) eqn:?Hrej;
        [|destruct (nth 3 _ _) as [?battery|] eqn:?Hbat]]]].

(* ================================================================== *)
(** ** plugin.js: the load of the stored configuration *)

Definition CONFIG_RETRY_BASE_DELAY_MS : Z := 1000.
Definition CONFIG_RETRY_MAX_DELAY_MS : Z := 10000.

(** [isTransportNotReadyError(error)].  [None] is a falsy thrown value;
    otherwise the message of the error. *)
Definition isTransportNotReadyError (error : option string) : bool :=
  match error with
  | None => false
  | Some message =>
      includes message "Cannot read properties of null"
      && includes message "send"
  end.

(** [Math.min(BASE * Math.pow(2, configRetryAttempts), MAX)] *)
Definition retry_delay (attempts : nat) : Z :=
  Z.min (CONFIG_RETRY_BASE_DELAY_MS * 2 ^ Z.of_nat attempts)
        CONFIG_RETRY_MAX_DELAY_MS.

(** [scheduleConfigRetry()]: the second component is the delay of the
    timer it sets, if it sets one. *)
Definition scheduleConfigRetry (st : plugin_state)
  : plugin_state * option Z :=
  if configRetryTimer st then (st, None)
  else (set_configRetry true (S (configRetryAttempts st)) st,
        Some (retry_delay (configRetryAttempts st))).

(** [loadInitialConfig] from its [await] on.  [inr stored] is the value
    [plugin.getConfig()] resolved with, [inl error] what it threw.  The
    second component is the delay of the retry timer set, if any. *)
Definition loadInitialConfig_resume
  (result : option string + option raw_config) (st : plugin_state)
  : plugin_state * option Z :=
  match result with
  | inr stored =>
      let st := set_pluginConfig (buildConfig stored) st in
      let st := set_pollIntervalMs (getPollIntervalMs (pluginConfig st)) st in
      let st :=
        if configRetryTimer st
        then set_configRetry false 0 (emit ClearTimeout st)
        else set_configRetry false 0 st in
      (ensurePolling st, None)
  | inl error =>
      let '(st, timer) :=
        if isTransportNotReadyError error
        then scheduleConfigRetry st
        else (st, None) in
      let st := set_pluginConfig (buildConfig None) st in
      let st := set_pollIntervalMs (getPollIntervalMs (pluginConfig st)) st in
      (ensurePolling st, timer)
  end.

(** The callback of the retry timer, up to the [await] of the load it
    starts: [configRetryTimer = null]. *)
Definition retry_timer_fires (st : plugin_state) : plugin_state :=
  if configRetryTimer st
  then set_configRetry false (configRetryAttempts st) st
  else st.

(** Everything the plugin reacts to: the events of the host, the end of a
    load of the configuration, the retry timer. *)
Inductive lifecycle_event : Type :=
| PluginEvent (e : event)
| ConfigLoaded (result : option string + option raw_config)
| RetryTimerFired.

Definition step_all (e : lifecycle_event) (st : plugin_state)
  : plugin_state :=
  match e with
  | PluginEvent e => step e st
  | ConfigLoaded result => fst (loadInitialConfig_resume result st)
  | RetryTimerFired => retry_timer_fires st
  end.

Definition run_all (es : list lifecycle_event) (st : plugin_state)
  : plugin_state :=
  fold_left (fun s e => step_all e s) es st.

(** A load that fails because the transport is not ready, retried each
    time the retry timer fires: the delays of the timers set, in order. *)
Fixpoint failed_loads (k : nat) (message : string) (st : plugin_state)
  : list (option Z) * plugin_state :=
  match k with
  | O => ([], st)
  | S k' =>
      let '(st1, timer) := loadInitialConfig_resume (inl (Some message)) st in
      let '(timers, st2) := failed_loads k' message (retry_timer_fires st1) in
      (timer :: timers, st2)
  end.

(** The message node gives when the transport is not there yet. *)
Definition transport_not_ready : string :=
  "Cannot read properties of null (reading 'send')".

(** The number of reads that have settled among the events. *)
Definition settled_reads (es : list lifecycle_event) : nat :=
  List.length
    (filter (fun e => match e with
                      | PluginEvent (ReadSettled _) => true
                      | _ => false
                      end) es).

(** The [Draw] effects of [renderAllKeys]: one per key, in the order of
    the map. *)
Definition draws_of (s : status) (keys : list (string * (string * key)))
  : list effect :=
  map (fun entry =>
         Draw (fst (snd entry)) (uid (snd (snd entry))) (formatTitle s)
              (match s with
               | Failure _ _ => "#FF5555"
               | _ => "#FFFFFF"
               end)) keys.

(** No character of the string is a colon. *)
Fixpoint no_colon (s : string) : bool :=
  match s with
  | EmptyString => true
  | String c s' => negb (Ascii.eqb c ":") && no_colon s'
  end.

(** Every character of the string satisfies [P]. *)
Fixpoint string_forall (P : ascii -> bool) (s : string) : bool :=
  match s with
  | EmptyString => true
  | String c s' => P c && string_forall P s'
  end.

(* ================================================================== *)
(** ** plugin.js, the variant that runs a helper script *)

Module ExecPlugin.

(** The error [execFile] passes to its callback. *)
Record exec_error : Type := {
  error_code : option string;
  error_killed : bool;
  error_message : string
}.

(** The callback [readBatteryOnce] gives to [execFile]: how the promise
    settles. *)
Definition on_exit (pythonExecutable : string) (error : option exec_error)
  (stdout stderr : string) : outcome :=
  match error with
  | Some e =>
      Rejected
        (Error
           (match error_code e with
            | Some c =>
                if String.eqb c "ENOENT"
                then "Executable not found: " ++ pythonExecutable
                else if error_killed e then "Command timed out"
                     else if is_empty (error_message e) then "Command failed"
                          else error_message e
            | None =>
                if error_killed e then "Command timed out"
                else if is_empty (error_message e) then "Command failed"
                     else error_message e
            end))
  | None =>
      let trimmedStdout := trim stdout in
      match parseInt trimmedStdout 10 with
      | None =>
          let errMsg :=
            if negb (is_empty (trim stderr))
            then trimmedStdout ++ " (" ++ trim stderr ++ ")"
            else if is_empty trimmedStdout then "No data received"
                 else trimmedStdout in
          Rejected (Error ("Unexpected output: " ++ errMsg))
      | Some parsedValue => Resolved (Z.max 0 (Z.min 100 parsedValue))
      end
  end.

End ExecPlugin.

(* ================================================================== *)
(** ** The order of the calls to the device *)

(** Where a read stands with the device: no handle open ([Released], with
    the handle just closed if the last call closed one), a handle opened,
    the init feature sent, the delay waited, the report fetched, or the
    init feature refused. *)
Inductive phase : Type :=
| Released (closed : option nat)
| Opened
| Initialised (h : nat)
| Settled (h : nat)
| Fetched (h : nat)
| SendFailed (h : nat).

(** The calls allowed in each phase.  A handle is opened only when none is
    open; the init feature goes to the handle just opened; the report is
    fetched from the handle that took the init feature, after the wait;
    [close] is called on the open handle, or once more on the handle just
    closed.  Anything else is refused. *)
Definition phase_step (ph : phase) (e : hid_event) : option phase :=
  match ph, e with
  | Released _, EvEnumerate => Some (Released None)
  | Released _, EvOpen _ false => Some (Released None)
  | Released _, EvOpen _ true => Some Opened
  | Released _, EvWait _ _ => Some (Released None)
  | Released (Some h), EvClose h' _ =>
      if Nat.eqb h h' then Some (Released None) else None
  | Opened, EvSend h _ true => Some (Initialised h)
  | Opened, EvSend h _ false => Some (SendFailed h)
  | Initialised h, EvWait _ _ => Some (Settled h)
  | Settled h, EvGet h' _ _ => if Nat.eqb h h' then Some (Fetched h) else None
  | Fetched h, EvClose h' _ =>
      if Nat.eqb h h' then Some (Released (Some h)) else None
  | SendFailed h, EvClose h' _ =>
      if Nat.eqb h h' then Some (Released (Some h)) else None
  | _, _ => None
  end.

Fixpoint phase_run (ph : phase) (tr : list hid_event) : option phase :=
  match tr with
  | [] => Some ph
  | e :: rest =>
      match phase_step ph e with
      | Some ph' => phase_run ph' rest
      | None => None
      end
  end.

(** A log that follows the order and ends with no handle open. *)
Definition follows_protocol (tr : list hid_event) : Prop :=
  exists closed, phase_run (Released None) tr = Some (Released closed).

(** The waits and the successful opens of a log. *)
Definition waits_of (tr : list hid_event) : list hid_event :=
  filter (fun e => match e with EvWait _ _ => true | _ => false end) tr.

Definition opens_of (tr : list hid_event) : list hid_event :=
  filter (fun e => match e with EvOpen _ true => true | _ => false end) tr.



(** An entry that is a byte. *)
Definition is_byte (x : item) : Prop :=
  match x with
  | Num z => 0 <= z < 256
  | NonNumber => False
  end.

(** The wait of a read with the given delay. *)
Definition is_wait_of (delay : number) (e : hid_event) : Prop :=
  e = EvWait delay (negb (num_le delay (of_Z 0))).

(** A decimal digit or a lower-case letter from a to f. *)
Definition is_hex_digit (c : ascii) : bool :=
  ((48 <=? code c) && (code c <=? 57))
  || ((97 <=? code c) && (code c <=? 102)).

(** A character of a printed integer or of its "0x" prefix. *)
Definition is_plain (c : ascii) : bool :=
  is_hex_digit c || Ascii.eqb c "x" || Ascii.eqb c "-".


(** The line feed that ends a printed line. *)
Definition line_feed : string := String (ascii_of_nat 10) EmptyString.

(** What no function of the scheduler writes: the configuration, the
    keys, the cached status and the state of the config retry. *)
Definition same_store (a b : plugin_state) : Prop :=
  pluginConfig a = pluginConfig b
  /\ batteryKeys a = batteryKeys b
  /\ latestStatus a = latestStatus b
  /\ configRetryTimer a = configRetryTimer b
  /\ configRetryAttempts a = configRetryAttempts b.

(** One when a poll is in flight, zero otherwise. *)
Definition in_flight_count (st : plugin_state) : nat :=
  if pollInFlight st then 1%nat else 0%nat.

(** An event that is the end of a read. *)
Definition is_read_settled (e : lifecycle_event) : bool :=
  match e with
  | PluginEvent (ReadSettled _) => true
  | _ => false
  end.

(** The timer runs only while a key is shown. *)
Definition timer_needs_keys (st : plugin_state) : Prop :=
  pollTimer st <> None -> batteryKeys st <> [].


(** The [Draw] of one key with a status. *)
Definition draw_of (serialNumber : string) (k : key) (s : status) : effect :=
  Draw serialNumber (uid k) (formatTitle s)
       (match s with
        | Failure _ _ => "#FF5555"
        | _ => "#FFFFFF"
        end).

(** The calls of [setInterval] and [clearInterval] in a log, and the timer
    they leave running: a timer is set only when none runs, and the timer
    cleared is the one that runs. *)
Inductive timer_log : list effect -> option number -> Prop :=
| timer_log_nil : timer_log [] None
| timer_log_set l ms :
    timer_log l None -> timer_log (l ++ [SetInterval ms]) (Some ms)
| timer_log_clear l t :
    timer_log l (Some t) -> timer_log (l ++ [ClearInterval t]) None
| timer_log_other l running e :
    timer_log l running ->
    match e with SetInterval _ | ClearInterval _ => False | _ => True end ->
    timer_log (l ++ [e]) running.



(* ================================================================== *)
(** ** Numbers *)

Lemma Qtrunc_inject_Z (z : Z) : Qtrunc (inject_Z z) = z.
Proof.
  unfold Qtrunc, Qceiling.
  destruct (Qle_bool 0 (inject_Z z)).
  - apply Qfloor_Z.
  - change (- inject_Z z)%Q with (inject_Z (- z)).
    rewrite Qfloor_Z. lia.
Qed.

Lemma Qle_bool_inject_Z (a b : Z) :
  Qle_bool (inject_Z a) (inject_Z b) = (a <=? b).
Proof.
  unfold Qle_bool, inject_Z. simpl. now rewrite !Z.mul_1_r.
Qed.

Lemma Qeq_bool_inject_Z (a b : Z) :
  Qeq_bool (inject_Z a) (inject_Z b) = (a =? b).
Proof.
  unfold Qeq_bool, inject_Z. simpl. now rewrite !Z.mul_1_r.
Qed.

Lemma num_le_of_nat (a b : nat) :
  num_le (of_nat a) (of_nat b) = (a <=? b)%nat.
Proof.
  unfold of_nat, of_Z, num_le. rewrite Qle_bool_inject_Z.
  destruct (Nat.leb_spec a b); [apply Z.leb_le | apply Z.leb_gt]; lia.
Qed.

(** A valid [retryCount] is left as it is. *)
Lemma normalised_retryCount_valid (config : BatteryConfig) (N : nat) :
  retryCount_is config N -> (1 <= N)%nat ->
  normalised_retryCount config = of_nat N.
Proof.
  unfold retryCount_is, normalised_retryCount. intros -> HN.
  unfold or_else, truthy, of_nat, of_Z.
  change 0%Q with (inject_Z 0). rewrite Qeq_bool_inject_Z.
  destruct (Z.eqb_spec (Z.of_nat N) 0) as [E|_]; [lia|]. simpl negb. cbv iota.
  unfold Math_trunc, of_Z. rewrite Qtrunc_inject_Z.
  unfold Math_max. rewrite Qle_bool_inject_Z.
  destruct (Z.leb_spec 1 (Z.of_nat N)); [reflexivity | lia].
Qed.

Lemma num_le_of_nat_mono (j m : nat) (rc : number) :
  (j <= m)%nat -> num_le (of_nat m) rc = true -> num_le (of_nat j) rc = true.
Proof.
  intros Hjm. destruct rc as [| | |q]; simpl; auto.
  rewrite !Qle_bool_iff. intros H.
  apply Qle_trans with (inject_Z (Z.of_nat m)); auto.
  rewrite <- Zle_Qle. lia.
Qed.

(* ================================================================== *)
(** ** One attempt *)

Lemma attempts_made_snoc (tr : list hid_event) (e : hid_event) :
  attempts_made (tr ++ [e]) =
  (attempts_made tr + match e with EvOpen _ _ => 1 | _ => 0 end)%nat.
Proof.
  unfold attempts_made. rewrite filter_app, length_app.
  destruct e; reflexivity.
Qed.

Lemma closes_of_snoc (h : nat) (tr : list hid_event) (e : hid_event) :
  closes_of h (tr ++ [e]) =
  (closes_of h tr
   + match e with
     | EvClose h' _ => if Nat.eqb h h' then 1 else 0
     | _ => 0
     end)%nat.
Proof.
  unfold closes_of. rewrite filter_app, length_app.
  destruct e; try reflexivity. simpl. now destruct (Nat.eqb h handle).
Qed.

Lemma remove_handle_head (h : nat) (l : list nat) :
  remove_handle h (h :: l) = remove_handle h l.
Proof. unfold remove_handle. simpl. now rewrite Nat.eqb_refl. Qed.

Lemma remove_handle_twice (h : nat) (l : list nat) :
  remove_handle h (remove_handle h l) = remove_handle h l.
Proof.
  unfold remove_handle. induction l as [|x l IH]; simpl; auto.
  destruct (Nat.eqb h x) eqn:E; simpl; rewrite ?E; simpl; congruence.
Qed.

Lemma remove_handle_absent (h : nat) (l : list nat) :
  ~ In h (remove_handle h l).
Proof.
  unfold remove_handle. rewrite filter_In. intros [_ H].
  now rewrite Nat.eqb_refl in H.
Qed.

Lemma remove_handle_incl (h x : nat) (l : list nat) :
  In x (remove_handle h l) -> In x l.
Proof. unfold remove_handle. rewrite filter_In. tauto. Qed.

(** What an attempt ends with depends on the device alone, not on the
    path, the delay or the log. *)
Lemma run_attempt_verdict p d a io st :
  fst (run_attempt p d a io st) = attempt_verdict a io.
Proof.
  unfold attempt_verdict. attempt_cases io; reflexivity.
Qed.

(** Each turn of the loop calls [new HID.HID] once. *)
Lemma run_attempt_attempts p d a io st :
  attempts_made (trace (snd (run_attempt p d a io st)))
  = S (attempts_made (trace st)).
Proof.
  attempt_cases io; unfold safeClose, wait, log, opened; simpl;
    rewrite ?attempts_made_snoc; simpl; lia.
Qed.

(** The handles left open by a turn of the loop. *)
Lemma run_attempt_live p d a io st :
  live (snd (run_attempt p d a io st))
  = match open_fault io with
    | Some _ => live st
    | None => remove_handle a (live st)
    end.
Proof.
  attempt_cases io; unfold safeClose, wait, log, opened; cbn [live trace];
    rewrite ?remove_handle_twice, ?remove_handle_head; reflexivity.
Qed.

Lemma run_attempt_live_nil p d a io st :
  live st = [] -> live (snd (run_attempt p d a io st)) = [].
Proof.
  intros H. rewrite run_attempt_live, H. now destruct (open_fault io).
Qed.

(* ================================================================== *)
(** ** The retry loop *)

(** The loop, one turn unfolded. *)
Lemma retry_loop_S fuel env p d rc a le st :
  retry_loop (S fuel) env p d rc a le st
  = if num_le (of_nat a) rc then
      match run_attempt p d a (session env a) st with
      | (Return value, st') => Some (Resolved value, st')
      | (Continue e, st') =>
          retry_loop fuel env p d rc (S a) (Some e) st'
      end
    else Some (Rejected (final_error le), st).
Proof. reflexivity. Qed.

(** One more unit of fuel never changes a result. *)
Lemma retry_loop_fuel_S fuel env p d rc :
  forall a le st r,
    retry_loop fuel env p d rc a le st = Some r ->
    retry_loop (S fuel) env p d rc a le st = Some r.
Proof.
  induction fuel as [|fuel IH]; intros a le st r H; [discriminate|].
  rewrite retry_loop_S in H. rewrite retry_loop_S.
  destruct (num_le (of_nat a) rc); [|exact H].
  destruct (run_attempt p d a (session env a) st) as [[v|e] st'];
    [exact H | apply IH; exact H].
Qed.

Lemma retry_loop_fuel_le fuel fuel' env p d rc a le st r :
  (fuel <= fuel')%nat ->
  retry_loop fuel env p d rc a le st = Some r ->
  retry_loop fuel' env p d rc a le st = Some r.
Proof.
  intros Hfuel H. induction Hfuel; auto using retry_loop_fuel_S.
Qed.

(** [k] failing attempts from attempt [a] on, then a success, all within
    the bound: the loop returns at the success, after [k + 1] attempts. *)
Lemma retry_loop_success env p d rc :
  forall k a le st v,
    (forall j, (a <= j < a + k)%nat ->
               exists e, attempt_verdict j (session env j) = Continue e) ->
    attempt_verdict (a + k) (session env (a + k)) = Return v ->
    num_le (of_nat (a + k)) rc = true ->
    exists st',
      retry_loop (S k) env p d rc a le st = Some (Resolved v, st')
      /\ attempts_made (trace st') = (attempts_made (trace st) + k + 1)%nat.
Proof.
  induction k as [|k IH]; intros a le st v Hfail Hok Hle;
    pose proof (run_attempt_verdict p d a (session env a) st) as Hv;
    pose proof (run_attempt_attempts p d a (session env a) st) as Hn;
    rewrite retry_loop_S.
  - rewrite Nat.add_0_r in Hok, Hle. rewrite Hle.
    destruct (run_attempt p d a (session env a) st) as [r st'].
    simpl in Hv, Hn. rewrite Hok in Hv. subst r.
    exists st'. split; [reflexivity | lia].
  - assert (Ha : num_le (of_nat a) rc = true)
      by (apply num_le_of_nat_mono with (a + S k)%nat; [lia | exact Hle]).
    destruct (Hfail a ltac:(lia)) as [e He].
    rewrite Ha.
    destruct (run_attempt p d a (session env a) st) as [r st1].
    simpl in Hv, Hn. rewrite He in Hv. subst r.
    destruct (IH (S a) (Some e) st1 v) as [st' [Hrun Hcount]].
    + intros j Hj. apply Hfail. lia.
    + now replace (S a + k)%nat with (a + S k)%nat by lia.
    + now replace (S a + k)%nat with (a + S k)%nat by lia.
    + exists st'. split; [exact Hrun | lia].
Qed.


(** No handle is left open by the loop. *)
Lemma retry_loop_live fuel env p d rc :
  forall a le st r st',
    retry_loop fuel env p d rc a le st = Some (r, st') ->
    live st = [] -> live st' = [].
Proof.
  induction fuel as [|fuel IH]; intros a le st r st' H Hlive; [discriminate|].
  rewrite retry_loop_S in H. destruct (num_le (of_nat a) rc).
  - pose proof (run_attempt_live_nil p d a (session env a) st Hlive) as Hl.
    destruct (run_attempt p d a (session env a) st) as [[v|e] st1];
      simpl in Hl.
    + inversion H; subst; auto.
    + eapply IH; eauto.
  - inversion H; subst; auto.
Qed.


(* ================================================================== *)
(** ** The whole read *)

(** Nothing is opened while the path is resolved. *)
Lemma resolve_path_fresh config env r st0 :
  resolve_path config env initial_state = (r, st0) ->
  attempts_made (trace st0) = 0%nat /\ live st0 = [].
Proof.
  unfold resolve_path, findDevicePath.
  destruct (is_empty (pinned_path config)).
  - destruct (enumeration env) as [msg|devices].
    + intros H; inversion H; subst; auto.
    + destruct (select_match _); intros H; inversion H; subst; auto.
  - intros H; inversion H; subst; auto.
Qed.

(** An attempt returns only on an accepted report, and what it returns is
    the clamped entry at offset 3. *)
Lemma attempt_verdict_return a io v :
  attempt_verdict a io = Return v ->
  open_fault io = None /\ send_fault io = None
  /\ exists d b,
      get_reply io = GetReturns (Some d)
      /\ report_rejected (Some d) = false
      /\ nth 3 d NonNumber = Num b
      /\ v = clamp b.
Proof.
  unfold attempt_verdict. attempt_cases io; simpl; intros H;
    try discriminate.
  destruct data as [d|]; [|discriminate].
  inversion H; subst. repeat split; auto. exists d, battery. auto.
Qed.

(** C1.  With [retryCount = N], if the attempts 1 to [k] fail, with
    [k < N], and attempt [k + 1] succeeds, then [readBatteryPercentage]
    resolves with the value of that attempt, which is the clamped entry at
    offset 3 of its report, and exactly [k + 1] attempts are made: none
    follows the success.  Any fuel above [k] gives this result. *)
Theorem read_returns_first_success :
  forall (config : BatteryConfig) (env : hid_env) (N k : nat) (v : Z)
         (targetPath : string) (st0 : hid_state),
    retryCount_is config N ->
    resolve_path config env initial_state = (inr targetPath, st0) ->
    (k < N)%nat ->
    (forall j, (1 <= j <= k)%nat ->
               exists e, attempt_verdict j (session env j) = Continue e) ->
    attempt_verdict (S k) (session env (S k)) = Return v ->
    exists st,
      (forall fuel, (k < fuel)%nat ->
         readBatteryPercentage fuel config env = Some (Resolved v, st))
      /\ attempts_made (trace st) = S k
      /\ (exists d b,
            get_reply (session env (S k)) = GetReturns (Some d)
            /\ nth 3 d NonNumber = Num b /\ v = clamp b)
      /\ live st = [].
Proof.
  intros config env N k v targetPath st0 HN Hres Hk Hfail Hok.
  destruct (resolve_path_fresh _ _ _ _ Hres) as [Hzero Hlive].
  destruct (retry_loop_success env targetPath (normalised_initDelay config)
              (normalised_retryCount config) k 1 None st0 v)
    as [st [Hrun Hcount]].
  - intros j Hj. apply Hfail. lia.
  - exact Hok.
  - rewrite (normalised_retryCount_valid config N HN) by lia.
    rewrite num_le_of_nat. apply Nat.leb_le. lia.
  - exists st. repeat split.
    + intros fuel Hfuel. unfold readBatteryPercentage. rewrite Hres.
      apply retry_loop_fuel_le with (S k); [lia | exact Hrun].
    + lia.
    + destruct (attempt_verdict_return _ _ _ Hok)
        as (_ & _ & d & b & Hget & _ & Hb & Hv).
      exists d, b. auto.
    + eapply retry_loop_live; eauto.
Qed.


Lemma read_returns_first_success_witness :
  exists st,
    (forall fuel, (2 < fuel)%nat ->
       readBatteryPercentage fuel example_config recovering_env
       = Some (Resolved 100, st))
    /\ attempts_made (trace st) = 3%nat
    /\ (exists d b,
          get_reply (session recovering_env 3) = GetReturns (Some d)
          /\ nth 3 d NonNumber = Num b /\ 100 = clamp b)
    /\ live st = [].
Proof.
  apply (read_returns_first_success example_config recovering_env 3 2 100
           "/dev/hidraw0" initial_state).
  - reflexivity.
  - reflexivity.
  - lia.
  - intros j Hj.
    destruct j as [|[|[|j]]]; [lia | | | lia]; eexists; reflexivity.
  - reflexivity.
Defined.


(** The rejection of the example is the error of attempt 3 alone. *)
Example last_error_example :
  readBatteryPercentage 4 example_config failing_env
  = Some (Rejected
            (Error "Failed to read feature report (attempt 3): timeout"),
          {| live := [];
             trace :=
               [EvOpen "/dev/hidraw0" false;
                EvOpen "/dev/hidraw0" true;
                EvSend 2 ANGRY_MIAO_INIT_FEATURE false;
                EvClose 2 false;
                EvWait (of_Z 50) true;
                EvOpen "/dev/hidraw0" true;
                EvSend 3 ANGRY_MIAO_INIT_FEATURE true;
                EvWait (of_Z 50) true;
                EvGet 3 0xf7 65;
                EvClose 3 false] |}).
Proof. vm_compute. reflexivity. Qed.

(* ================================================================== *)
(** ** Validation of the feature report *)

(** A report is accepted exactly when it is present, has at least four
    entries and starts with the report id. *)
Lemma report_accepted_iff (data : option (list item)) :
  report_rejected data = false
  <-> exists l, data = Some l /\ (4 <= List.length l)%nat
                /\ nth 0 l NonNumber = Num ANGRY_MIAO_REPORT_ID.
Proof.
  destruct data as [l|]; simpl.
  - rewrite orb_false_iff, Z.ltb_ge. split.
    + intros [Hlen Hid]. exists l. repeat split; [lia|].
      destruct (nth 0 l NonNumber) as [z|]; [|discriminate].
      apply negb_false_iff, Z.eqb_eq in Hid. now subst.
    + intros (l' & E & Hlen & Hid). inversion E; subst l'.
      split; [lia|]. rewrite Hid. unfold ANGRY_MIAO_REPORT_ID.
      reflexivity.
  - split; [discriminate|]. intros (l & E & _). discriminate.
Qed.

Lemma report_rejected_iff (data : option (list item)) :
  report_rejected data = true
  <-> data = None
      \/ exists l, data = Some l
                   /\ ((List.length l < 4)%nat
                       \/ nth 0 l NonNumber <> Num ANGRY_MIAO_REPORT_ID).
Proof.
  split.
  - intros H. destruct data as [l|]; [right | now left].
    exists l. split; [reflexivity|].
    destruct (Nat.ltb_spec (List.length l) 4) as [Hlt|Hge]; [now left|right].
    intros Hid.
    assert (Hacc : report_rejected (Some l) = false)
      by (apply report_accepted_iff; exists l; auto).
    congruence.
  - intros H. destruct (report_rejected data) eqn:E; [reflexivity|].
    apply report_accepted_iff in E. destruct E as (l & -> & Hlen & Hid).
    destruct H as [H | (l' & E & [Hlt | Hne])]; [discriminate| |];
      inversion E; subst l'; [lia | contradiction].
Qed.

(** C4.  During an attempt that opened the device and sent the init
    feature, the report is requested with id 0xF7 and length 65.  When the
    report is absent, shorter than 4 or does not start with 0xF7, the
    attempt records the error "Unexpected feature report: " followed by the
    hex encoding of the payload, or by "null" when the report is absent;
    nothing is thrown; the handle is closed; and the loop goes on with the
    next attempt, this error being [lastError]: one attempt is used. *)
Theorem rejected_report_is_parse_error :
  forall (env : hid_env) (targetPath : string) (initDelay retryCount : number)
         (attempt fuel : nat) (lastError : option js_error) (st : hid_state)
         (data : option (list item)),
    open_fault (session env attempt) = None ->
    send_fault (session env attempt) = None ->
    get_reply (session env attempt) = GetReturns data ->
    (data = None
     \/ exists l, data = Some l
                  /\ ((List.length l < 4)%nat
                      \/ nth 0 l NonNumber <> Num 0xf7)) ->
    num_le (of_nat attempt) retryCount = true ->
    exists st',
      run_attempt targetPath initDelay attempt (session env attempt) st
      = (Continue (Error ("Unexpected feature report: " ++ payload_of data)),
         st')
      /\ payload_of data = match data with
                           | Some l => hex_of l
                           | None => "null"
                           end
      /\ retry_loop (S fuel) env targetPath initDelay retryCount attempt
                    lastError st
         = retry_loop fuel env targetPath initDelay retryCount (S attempt)
             (Some (Error ("Unexpected feature report: " ++ payload_of data)))
             st'
      /\ attempts_made (trace st') = S (attempts_made (trace st))
      /\ In (EvGet attempt 0xf7 65) (trace st')
      /\ live st' = remove_handle attempt (live st).
Proof.
  intros env targetPath initDelay retryCount attempt fuel lastError st data
         Hopen Hsend Hget Hbad Hle.
  apply report_rejected_iff in Hbad.
  pose proof (run_attempt_attempts targetPath initDelay attempt
                (session env attempt) st) as Hn.
  pose proof (run_attempt_live targetPath initDelay attempt
                (session env attempt) st) as Hl.
  rewrite Hopen in Hl.
  assert (Hrun : exists st',
             run_attempt targetPath initDelay attempt (session env attempt) st
             = (Continue
                  (Error ("Unexpected feature report: " ++ payload_of data)),
                st')
             /\ In (EvGet attempt 0xf7 65) (trace st')).
  { unfold run_attempt. rewrite Hopen, Hsend, Hget, Hbad.
    eexists. split; [reflexivity|].
    unfold safeClose, wait, log, opened; cbn [live trace].
    rewrite !in_app_iff. left. left. right. left. reflexivity. }
  destruct Hrun as (st' & Hrun & Hev).
  rewrite Hrun in Hn, Hl. simpl in Hn, Hl.
  exists st'. split; [exact Hrun|]. split; [now destruct data|].
  split; [rewrite retry_loop_S, Hle, Hrun; reflexivity|].
  split; [exact Hn|]. split; [exact Hev | exact Hl].
Qed.

Lemma rejected_report_is_parse_error_witness :
  exists st',
    run_attempt "/dev/hidraw0" (of_Z 50) 2 (session recovering_env 2)
                initial_state
    = (Continue (Error "Unexpected feature report: f70009"), st')
    /\ attempts_made (trace st') = 1%nat
    /\ live st' = [].
Proof.
  destruct (rejected_report_is_parse_error recovering_env "/dev/hidraw0"
              (of_Z 50) (of_nat 3) 2 0 None initial_state
              (Some [Num 0xf7; Num 0; Num 9]))
    as (st' & Hrun & _ & _ & Hn & _ & Hl).
  - reflexivity.
  - reflexivity.
  - reflexivity.
  - right. eexists. split; [reflexivity|]. left. simpl. lia.
  - reflexivity.
  - exists st'. repeat split; auto.
Defined.

(** A report whose first entry is not the report id, and an absent one. *)
Example id_mismatch_is_parse_error :
  attempt_verdict 1 (io_report (Some [Num 0x3f; Num 0; Num 1; Num 57; Num 0]))
  = Continue (Error "Unexpected feature report: 3f00013900")
  /\ attempt_verdict 1 (io_report None)
     = Continue (Error "Unexpected feature report: null").
Proof. split; reflexivity. Qed.

(* ================================================================== *)
(** ** Closing the handle *)

(** How many times a turn of the loop calls [close] on its handle. *)
Lemma run_attempt_closes p d a io st :
  closes_of a (trace (snd (run_attempt p d a io st)))
  = (closes_of a (trace st)
     + match open_fault io, send_fault io, get_reply io with
       | Some _, _, _ => 0
       | None, Some _, _ => 1
       | None, None, GetThrows _ => 1
       | None, None, GetReturns _ => 2
       end)%nat.
Proof.
  attempt_cases io; unfold safeClose, wait, log, opened;
    cbn [snd live trace]; rewrite ?closes_of_snoc; rewrite ?Nat.eqb_refl;
    lia.
Qed.

(** What [close] throws changes neither the verdict nor the open handles. *)
Lemma run_attempt_close_fault p d a io io' st :
  same_but_close io io' ->
  fst (run_attempt p d a io' st) = fst (run_attempt p d a io st)
  /\ live (snd (run_attempt p d a io' st))
     = live (snd (run_attempt p d a io st)).
Proof.
  intros (Hopen & Hsend & Hget). split.
  - rewrite !run_attempt_verdict. unfold attempt_verdict, run_attempt.
    rewrite Hopen, Hsend, Hget.
    destruct (open_fault io'); [reflexivity|].
    destruct (send_fault io'); [reflexivity|].
    destruct (get_reply io') as [msg|data]; [reflexivity|].
    destruct (report_rejected data); [reflexivity|].
    destruct (nth 3 _ _); reflexivity.
  - rewrite !run_attempt_live, Hopen. reflexivity.
Qed.

Lemma readBatteryPercentage_live fuel config env r st :
  readBatteryPercentage fuel config env = Some (r, st) -> live st = [].
Proof.
  unfold readBatteryPercentage.
  destruct (resolve_path config env initial_state) as [[e|targetPath] st0]
    eqn:Hres; destruct (resolve_path_fresh _ _ _ _ Hres) as [_ Hlive].
  - intros H; inversion H; subst; auto.
  - intros H. eapply retry_loop_live; eauto.
Qed.

(** C9.  Whatever the device does during an attempt, a handle that is open
    after the attempt was open before it and is not the handle of the
    attempt; when the device was opened, [safeClose] has called [close] on
    its handle, once or twice; when it was not, there is no handle and
    nothing but the failed open is logged; what [close] throws changes
    neither the result of the attempt nor the handles left open; and no
    handle is open when [readBatteryPercentage] settles. *)
Theorem every_exit_closes_the_handle :
  forall (targetPath : string) (initDelay : number) (attempt : nat)
         (io : attempt_io) (st : hid_state),
    (forall h,
        In h (live (snd (run_attempt targetPath initDelay attempt io st))) ->
        In h (live st) /\ (open_fault io = None -> h <> attempt))
    /\ (open_fault io = None ->
        (closes_of attempt (trace st) + 1
         <= closes_of attempt
              (trace (snd (run_attempt targetPath initDelay attempt io st)))
         <= closes_of attempt (trace st) + 2)%nat)
    /\ (open_fault io <> None ->
        snd (run_attempt targetPath initDelay attempt io st)
        = log (EvOpen targetPath false) st)
    /\ (forall io',
          same_but_close io io' ->
          fst (run_attempt targetPath initDelay attempt io' st)
          = fst (run_attempt targetPath initDelay attempt io st)
          /\ live (snd (run_attempt targetPath initDelay attempt io' st))
             = live (snd (run_attempt targetPath initDelay attempt io st)))
    /\ (forall fuel config env r st1,
          readBatteryPercentage fuel config env = Some (r, st1) ->
          live st1 = []).
Proof.
  intros targetPath initDelay attempt io st.
  split; [|split; [|split; [|split]]].
  - intros h. rewrite run_attempt_live.
    destruct (open_fault io) as [msg|].
    + intros Hin. split; [exact Hin | discriminate].
    + intros Hin. split; [eapply remove_handle_incl; eauto|].
      intros _ ->. exact (remove_handle_absent _ _ Hin).
  - intros Hopen. rewrite run_attempt_closes, Hopen.
    destruct (send_fault io); [lia|]. destruct (get_reply io); lia.
  - intros Hopen. unfold run_attempt.
    destruct (open_fault io); [reflexivity | contradiction].
  - intros io'. apply run_attempt_close_fault.
  - intros fuel config env r st1. apply readBatteryPercentage_live.
Qed.

Lemma every_exit_closes_the_handle_witness :
  (closes_of 3 (trace initial_state) + 1
   <= closes_of 3
        (trace (snd (run_attempt "/dev/hidraw0" (of_Z 50) 3
                       (session recovering_env 3) initial_state)))
   <= closes_of 3 (trace initial_state) + 2)%nat.
Proof.
  apply (every_exit_closes_the_handle "/dev/hidraw0" (of_Z 50) 3
           (session recovering_env 3) initial_state).
  reflexivity.
Defined.

(** The five exits of an attempt, each with the handles it leaves open. *)
Example exits_leave_nothing_open :
  map (fun io => live (snd (run_attempt "/dev/hidraw0" (of_Z 50) 1 io
                                        initial_state)))
      [io_report (Some (good_report 57));
       io_open_fails "busy";
       io_send_fails "stall";
       io_report (Some [Num 0xf7; Num 0; Num 9]);
       io_get_throws "timeout"]
  = [[]; []; []; []; []].
Proof. reflexivity. Qed.

(* ================================================================== *)
(** ** Normalisation of [retryCount] and [initDelayMs] *)










(** The cases the normalisation is there for. *)
Example normalisation_cases :
  map (fun x => normalised_retryCount (pinned_config "p" None x))
      [None; Some (of_Z 0); Some (of_Z (-3)); Some NaN; Some (Fin (27 # 10));
       Some (of_Z 3); Some PosInf]
  = [of_Z 1; of_Z 1; of_Z 1; of_Z 1; of_Z 2; of_Z 3; PosInf]
  /\ map (fun x => normalised_initDelay (pinned_config "p" x None))
         [None; Some (of_Z (-20)); Some (Fin (995 # 10)); Some NaN;
          Some PosInf]
     = [of_Z 0; of_Z 0; of_Z 99; of_Z 0; PosInf].
Proof. split; reflexivity. Qed.


(* ================================================================== *)
(** ** Device selection *)

(** [find] on the pairs of [matches] is [find] on the devices. *)
Lemma find_pairs (P : device_info * string -> bool)
  (Q : device_info -> bool) (l : list device_info) :
  (forall i, P (i, path_text i) = Q i) ->
  find P (map (fun i => (i, path_text i)) l)
  = option_map (fun i => (i, path_text i)) (find Q l).
Proof.
  intros H. induction l as [|x l IH]; simpl; [reflexivity|].
  rewrite H. destruct (Q x); [reflexivity | exact IH].
Qed.

Lemma find_none_existsb {A} (P : A -> bool) (l : list A) :
  find P l = None -> existsb P l = false.
Proof.
  induction l as [|x l IH]; simpl; [reflexivity|].
  destruct (P x); [discriminate | exact IH].
Qed.

Lemma find_some_existsb {A} (P : A -> bool) (l : list A) (c : A) :
  find P l = Some c -> existsb P l = true /\ In c l /\ P c = true.
Proof.
  intros H. destruct (find_some _ _ H) as [Hin HP].
  split; [|split; assumption]. apply existsb_exists. eauto.
Qed.

(** The array [matches] holds the devices with the requested ids and a
    non-empty path, in enumeration order, each with its path. *)
Lemma collect_matches_filter (vid pid : Z) (devices : list device_info) :
  collect_matches vid pid devices
  = map (fun info => (info, path_text info))
        (filter (fun info => ids_match vid pid info && has_path info)
                devices).
Proof.
  induction devices as [|info rest IH]; [reflexivity|].
  cbn [collect_matches filter]. rewrite IH.
  assert (Hstep : forall (b : bool) (F : list device_info),
             map (fun i => (i, path_text i)) (if b then info :: F else F)
             = if b
               then (info, path_text info) :: map (fun i => (i, path_text i)) F
               else map (fun i => (i, path_text i)) F)
    by (intros [] F; reflexivity).
  rewrite Hstep. unfold ids_match, has_path, path_text, normalisePath.
  destruct (vendorId info =? vid); [|reflexivity].
  destruct (productId info =? pid); [|reflexivity].
  destruct (path info) as [|s|s|]; try reflexivity;
    destruct (is_empty s) eqn:E; simpl; rewrite ?E; reflexivity.
Qed.

(** The selection, on the devices rather than on the pairs. *)
Lemma select_match_candidates (candidates : list device_info) :
  select_match (map (fun info => (info, path_text info)) candidates)
  = match candidates with
    | [] => None
    | first :: _ =>
        match find on_interface_2 candidates with
        | Some c => Some (path_text c)
        | None =>
            match find path_has_mi_02 candidates with
            | Some c => Some (path_text c)
            | None => Some (path_text first)
            end
        end
    end.
Proof.
  destruct candidates as [|first rest]; [reflexivity|].
  unfold select_match. cbn [map].
  change ((first, path_text first)
            :: map (fun info => (info, path_text info)) rest)
    with (map (fun info => (info, path_text info)) (first :: rest)).
  rewrite (find_pairs is_exact_interface on_interface_2)
    by reflexivity.
  rewrite (find_pairs is_preferred_path path_has_mi_02)
    by reflexivity.
  destruct (find on_interface_2 (first :: rest)); [reflexivity|].
  destruct (find path_has_mi_02 (first :: rest)); reflexivity.
Qed.

Lemma select_match_policy (candidates : list device_info) :
  selected_by_policy candidates
    (select_match (map (fun info => (info, path_text info)) candidates)).
Proof.
  rewrite select_match_candidates.
  destruct candidates as [|first rest]; [reflexivity|].
  unfold selected_by_policy.
  destruct (find on_interface_2 (first :: rest)) as [c|] eqn:E2.
  - destruct (find_some_existsb _ _ _ E2) as (-> & Hin & HP). eauto.
  - rewrite (find_none_existsb _ _ E2).
    destruct (find path_has_mi_02 (first :: rest)) as [c|] eqn:Em.
    + destruct (find_some_existsb _ _ _ Em) as (-> & Hin & HP). eauto.
    + rewrite (find_none_existsb _ _ Em).
      exists first. split; [now left | auto].
Qed.

(** C3, as the code has it.  The candidates are the enumerated devices
    whose ids are exactly the requested ones and whose path is not empty.
    [findDevicePath] follows the policy on them, and in each tier takes
    the first candidate in enumeration order.  Without a candidate, a read
    with no pinned path rejects with the error "Device not found" that
    gives the two ids in hexadecimal. *)
Theorem device_selection_policy :
  forall (env : hid_env) (vid pid : Z) (st : hid_state)
         (devices : list device_info),
    enumeration env = inr devices ->
    let candidates :=
      filter (fun info => ids_match vid pid info && has_path info) devices in
    exists result,
      fst (findDevicePath env vid pid st) = inr result
      /\ selected_by_policy candidates result
      /\ (forall c, find on_interface_2 candidates = Some c ->
                    result = Some (path_text c))
      /\ (forall c, find on_interface_2 candidates = None ->
                    find path_has_mi_02 candidates = Some c ->
                    result = Some (path_text c))
      /\ (forall first rest,
            find on_interface_2 candidates = None ->
            find path_has_mi_02 candidates = None ->
            candidates = first :: rest ->
            result = Some (path_text first))
      /\ (candidates = [] ->
          result = None
          /\ forall config fuel,
              is_empty (pinned_path config) = true ->
              target_vid config = vid ->
              target_pid config = pid ->
              readBatteryPercentage fuel config env
              = Some (Rejected
                        (Error ("Device not found (VID 0x"
                                ++ padStart0 4 (toString16 vid)
                                ++ ", PID 0x"
                                ++ padStart0 4 (toString16 pid) ++ ")")),
                      log EvEnumerate initial_state)).
Proof.
  intros env vid pid st devices Henum candidates.
  exists (select_match (collect_matches vid pid devices)).
  assert (Hsel : select_match (collect_matches vid pid devices)
                 = select_match
                     (map (fun info => (info, path_text info)) candidates))
    by (now rewrite collect_matches_filter).
  split; [unfold findDevicePath; now rewrite Henum|].
  split; [rewrite Hsel; apply select_match_policy|].
  rewrite Hsel, select_match_candidates.
  split; [|split; [|split]].
  - intros c Hc. destruct candidates; [discriminate|]. now rewrite Hc.
  - intros c H2 Hm. destruct candidates; [discriminate|].
    now rewrite H2, Hm.
  - intros first rest H2 Hm ->. now rewrite H2, Hm.
  - intros Hnil. split; [now rewrite Hnil|].
    intros config fuel Hpin Hvid Hpid.
    unfold readBatteryPercentage, resolve_path, findDevicePath.
    rewrite Hpin, Henum, Hvid, Hpid, Hsel, select_match_candidates, Hnil.
    reflexivity.
Qed.

Lemma device_selection_policy_witness :
  exists result,
    fst (findDevicePath windows_env 0x3151 0x5007 initial_state) = inr result
    /\ result = Some "\\?\HID#VID_3151&PID_5007&MI_02#8".
Proof.
  destruct (device_selection_policy windows_env 0x3151 0x5007 initial_state
              _ eq_refl) as (result & Hfind & _ & _ & Hmi & _).
  exists result. split; [exact Hfind|].
  apply (Hmi (nth 2 (match enumeration windows_env with
                     | inr l => l
                     | inl _ => []
                     end) interface_0)); reflexivity.
Defined.

(** C3, as stated, fails: the device on interface 2 has the requested ids
    but no path; [findDevicePath] skips it and returns the path of the
    other interface, which the policy on all devices with the requested
    ids does not allow. *)
Lemma pathless_candidate_is_skipped :
  fst (findDevicePath two_interfaces_env 0x3151 0x5007 initial_state)
  = inr (Some "/dev/hidraw1")
  /\ filter (ids_match 0x3151 0x5007) [pathless_interface_2; interface_0]
     = [pathless_interface_2; interface_0]
  /\ ~ selected_by_policy
        (filter (ids_match 0x3151 0x5007)
                [pathless_interface_2; interface_0])
        (Some "/dev/hidraw1").
Proof.
  split; [reflexivity|]. split; [reflexivity|].
  intros (c & Hin & Hres & Htier).
  destruct Hin as [<-|[<-|[]]]; simpl in *; discriminate.
Qed.

(* ================================================================== *)
(** ** Status equality *)





(** The examples of the specification. *)
Example statusesEqual_examples :
  statusesEqual (Value 5 "5%") (Value 6 "6%") = false
  /\ statusesEqual (Failure "x" "a") (Failure "x" "b") = false
  /\ statusesEqual (Unknown "waiting") (Value 5 "5%") = false
  /\ statusesEqual (Failure "x" "a") (Unknown "waiting") = false.
Proof. repeat split; reflexivity. Qed.


(* ================================================================== *)
(** ** The scheduler *)

Lemma polls_started_emit (e : effect) (st : plugin_state) :
  polls_started (emit e st)
  = (polls_started st + match e with ReadStarted _ => 1 | _ => 0 end)%nat.
Proof.
  unfold polls_started, emit. cbn [effects].
  rewrite filter_app, length_app. destruct e; reflexivity.
Qed.

Lemma timer_calls_emit (e : effect) (st : plugin_state) :
  timer_calls (effects (emit e st))
  = (timer_calls (effects st)
     ++ match e with
        | SetInterval _ | ClearInterval _ => [e]
        | _ => []
        end)%list.
Proof.
  unfold timer_calls, emit. cbn [effects].
  rewrite filter_app. destruct e; reflexivity.
Qed.

Lemma same_but_draws_refl (st : plugin_state) : same_but_draws st st.
Proof. unfold same_but_draws. tauto. Qed.

Lemma same_but_draws_trans (a b c : plugin_state) :
  same_but_draws a b -> same_but_draws b c -> same_but_draws a c.
Proof.
  unfold same_but_draws. intros H1 H2.
  decompose [and] H1. decompose [and] H2.
  repeat split; congruence.
Qed.

Lemma drawKey_same serialNumber k s st :
  same_but_draws (drawKey serialNumber k s st) st.
Proof.
  unfold same_but_draws, drawKey.
  rewrite polls_started_emit, timer_calls_emit, app_nil_r.
  repeat split; try reflexivity. lia.
Qed.

Lemma draw_all_same (s : status) (keys : list (string * (string * key))) :
  forall st,
    same_but_draws
      (fold_left (fun acc entry =>
                    drawKey (fst (snd entry)) (snd (snd entry)) s acc)
                 keys st) st.
Proof.
  induction keys as [|entry keys IH]; intros st; simpl.
  - apply same_but_draws_refl.
  - eapply same_but_draws_trans; [apply IH | apply drawKey_same].
Qed.

Lemma renderAllKeys_same (st : plugin_state) :
  same_but_draws (renderAllKeys st) st.
Proof. unfold renderAllKeys. apply draw_all_same. Qed.

(** [pollAndUpdate] while a poll is in flight: a forced call is noted, any
    other is dropped. *)
Lemma pollAndUpdate_busy forceRedraw force st :
  pollInFlight st = true ->
  pollAndUpdate forceRedraw force st
  = if force then set_pendingForcedRefresh true st else st.
Proof. unfold pollAndUpdate. now intros ->. Qed.

(** [pollAndUpdate] with no poll in flight and a key to show: a read
    starts. *)
Lemma pollAndUpdate_idle forceRedraw force st :
  pollInFlight st = false ->
  batteryKeys st <> [] ->
  pollAndUpdate forceRedraw force st
  = emit (ReadStarted (pluginConfig st))
         (set_pollInFlight true (Some forceRedraw) st).
Proof.
  unfold pollAndUpdate. intros -> Hkeys.
  destruct (batteryKeys st); [contradiction | reflexivity].
Qed.

Lemma pollAndUpdate_latestStatus forceRedraw force st :
  latestStatus (pollAndUpdate forceRedraw force st) = latestStatus st.
Proof.
  unfold pollAndUpdate.
  destruct (pollInFlight st); [destruct force; reflexivity|].
  destruct (map_size (batteryKeys st) =? 0)%nat; reflexivity.
Qed.

Lemma map_set_not_nil {V} (k : string) (v : V) (m : list (string * V)) :
  map_set k v m <> [].
Proof.
  destruct m as [|[k' v'] m]; simpl; [discriminate|].
  destruct (String.eqb k k'); discriminate.
Qed.

Lemma map_has_not_nil {V} (k : string) (m : list (string * V)) :
  map_has k m = true -> m <> [].
Proof. destruct m; [discriminate | discriminate]. Qed.

(** A trigger that arrives while a poll is in flight starts nothing: it
    sets the flag when it is a forced request and changes nothing else of
    the scheduler. *)
Lemma step_trigger_busy (e : event) (st : plugin_state) :
  pollInFlight st = true ->
  is_trigger e = true ->
  pollInFlight (step e st) = true
  /\ awaiting (step e st) = awaiting st
  /\ effects (step e st) = effects st
  /\ latestStatus (step e st) = latestStatus st
  /\ pendingForcedRefresh (step e st)
     = pendingForcedRefresh st || is_forced_request e
  /\ (is_forced_request e = true -> batteryKeys (step e st) <> [])
  /\ (batteryKeys st <> [] -> batteryKeys (step e st) <> []).
Proof.
  intros Hbusy Htrig.
  destruct e as [| | |serialNumber data_key| |]; try discriminate.
  - cbn [step is_forced_request]. rewrite orb_false_r.
    destruct (pollTimer st);
      rewrite ?pollAndUpdate_busy by assumption;
      repeat split; auto; discriminate.
  - cbn [step is_forced_request]. unfold on_data.
    destruct data_key as [k|];
      [|rewrite orb_false_r; repeat split; auto; discriminate].
    destruct (String.eqb (cid k) BATTERY_CID); cbn [negb];
      [|rewrite orb_false_r; repeat split; auto; discriminate].
    rewrite orb_true_r.
    destruct (map_has (makeKeyId serialNumber (uid k)) (batteryKeys st))
      eqn:Hhas; cbn [negb];
      rewrite pollAndUpdate_busy by assumption; cbn.
    + repeat split; auto; intros _; eapply map_has_not_nil; eauto.
    + repeat split; auto; intros _; apply map_set_not_nil.
Qed.

(** The same for a sequence of triggers. *)
Lemma run_triggers_busy (window : list event) :
  forall st,
    pollInFlight st = true ->
    Forall (fun e => is_trigger e = true) window ->
    pollInFlight (run window st) = true
    /\ awaiting (run window st) = awaiting st
    /\ effects (run window st) = effects st
    /\ latestStatus (run window st) = latestStatus st
    /\ pendingForcedRefresh (run window st)
       = pendingForcedRefresh st || existsb is_forced_request window
    /\ (existsb is_forced_request window = true ->
        batteryKeys (run window st) <> [])
    /\ (batteryKeys st <> [] -> batteryKeys (run window st) <> []).
Proof.
  induction window as [|e window IH]; intros st Hbusy Hall.
  - cbn. rewrite orb_false_r. repeat split; auto. discriminate.
  - inversion Hall as [|? ? He Hrest]; subst.
    destruct (step_trigger_busy e st Hbusy He)
      as (Hb & Ha & Hf & Hs & Hp & Hk & Hk').
    destruct (IH (step e st) Hb Hrest)
      as (Hb2 & Ha2 & Hf2 & Hs2 & Hp2 & Hk2 & Hk2').
    change (run (e :: window) st) with (run window (step e st)).
    cbn [existsb].
    split; [exact Hb2|]. split; [congruence|]. split; [congruence|].
    split; [congruence|].
    split; [rewrite Hp2, Hp; now rewrite orb_assoc|].
    split; [|auto].
    intros H. apply orb_true_iff in H. destruct H as [H|H]; auto.
Qed.

(** What the end of a poll does, given the flag. *)
Lemma resume_settles (result : outcome) (st : plugin_state)
  (forceRedraw : bool) :
  awaiting st = Some forceRedraw ->
  (pendingForcedRefresh st = true -> batteryKeys st <> []) ->
  let st' := pollAndUpdate_resume result st in
  pendingForcedRefresh st' = false
  /\ pollInFlight st' = pendingForcedRefresh st
  /\ awaiting st' = (if pendingForcedRefresh st then Some true else None)
  /\ polls_started st'
     = (polls_started st + if pendingForcedRefresh st then 1 else 0)%nat
  /\ timer_calls (effects st') = timer_calls (effects st).
Proof.
  intros Hawait Hkeys. unfold pollAndUpdate_resume. rewrite Hawait.
  set (shown :=
         if negb (statusesEqual (status_of result) (latestStatus st))
            || forceRedraw
         then renderAllKeys (set_latestStatus (status_of result) st)
         else st).
  assert (Hsame : same_but_draws shown (set_latestStatus (latestStatus shown) st)).
  { unfold shown.
    destruct (negb (statusesEqual (status_of result) (latestStatus st))
              || forceRedraw).
    - pose proof (renderAllKeys_same
                    (set_latestStatus (status_of result) st)) as H.
      unfold same_but_draws in *. decompose [and] H.
      repeat split; try assumption; try reflexivity.
    - unfold same_but_draws. repeat split; reflexivity. }
  unfold same_but_draws in Hsame.
  destruct Hsame as (Hc & Hk & Ht & Hi & Hf & Hs & Hp & Ha & Hn & Htc).
  cbn in Hc, Hk, Ht, Hi, Hf, Hp, Ha, Hn, Htc.
  cbn [pendingForcedRefresh set_pollInFlight]. rewrite Hp.
  destruct (pendingForcedRefresh st) eqn:Hpend.
  - rewrite pollAndUpdate_idle;
      [|reflexivity | cbn; rewrite Hk; auto].
    rewrite polls_started_emit, timer_calls_emit, app_nil_r.
    cbn. unfold polls_started in *. cbn.
    repeat split; auto; lia.
  - cbn. unfold polls_started in *. cbn. repeat split; auto; lia.
Qed.

(** C7.  Take a poll in flight, the flag not set, and any sequence of
    plain ticks and refresh requests arriving before the poll completes.
    No poll starts during the sequence; the flag ends up set exactly when
    the sequence holds a forced request, however many.  When the poll
    completes, the flag is cleared, and exactly one more poll starts if
    there was a forced request, none otherwise; that poll redraws
    unconditionally, and its own end starts no other. *)
Theorem forced_requests_coalesce :
  forall (st : plugin_state) (forceRedraw : bool) (window : list event)
         (result : outcome),
    pollInFlight st = true ->
    awaiting st = Some forceRedraw ->
    pendingForcedRefresh st = false ->
    Forall (fun e => is_trigger e = true) window ->
    let busy := run window st in
    let after := step (ReadSettled result) busy in
    polls_started busy = polls_started st
    /\ pendingForcedRefresh busy = existsb is_forced_request window
    /\ pendingForcedRefresh after = false
    /\ polls_started after
       = (polls_started st
          + if existsb is_forced_request window then 1 else 0)%nat
    /\ pollInFlight after = existsb is_forced_request window
    /\ awaiting after
       = (if existsb is_forced_request window then Some true else None)
    /\ (forall result',
          polls_started (step (ReadSettled result') after)
          = polls_started after).
Proof.
  intros st forceRedraw window result Hbusy Hawait Hpend Hall busy after.
  destruct (run_triggers_busy window st Hbusy Hall)
    as (Hb & Ha & Hf & _ & Hp & Hk & _).
  fold busy in Hb, Ha, Hf, Hp, Hk. rewrite Hpend in Hp. cbn [orb] in Hp.
  assert (Hn : polls_started busy = polls_started st)
    by (unfold polls_started; now rewrite Hf).
  destruct (resume_settles result busy forceRedraw)
    as (Hp' & Hb' & Ha' & Hn' & _).
  { congruence. }
  { rewrite Hp. exact Hk. }
  fold (step (ReadSettled result) busy) in Hp', Hb', Ha', Hn'.
  fold after in Hp', Hb', Ha', Hn'. rewrite Hp in Hb', Ha', Hn'.
  split; [exact Hn|]. split; [exact Hp|]. split; [exact Hp'|].
  split; [congruence|]. split; [exact Hb'|]. split; [exact Ha'|].
  intros result'. cbn [step].
  destruct (existsb is_forced_request window).
  - destruct (resume_settles result' after true Ha') as (_ & _ & _ & H & _).
    + rewrite Hp'. discriminate.
    + rewrite H, Hp'. lia.
  - unfold pollAndUpdate_resume. now rewrite Ha'.
Qed.

Lemma forced_requests_coalesce_witness :
  let window := [Data "FLEXBAR-1" (Some battery_key); TimerTick;
                 Data "FLEXBAR-1" (Some battery_key);
                 Data "FLEXBAR-1" (Some battery_key)] in
  let after := step (ReadSettled (Resolved 57))
                    (run window first_poll_in_flight) in
  polls_started after = 2%nat
  /\ pendingForcedRefresh after = false
  /\ pollInFlight after = true.
Proof.
  intros window after.
  destruct (forced_requests_coalesce first_poll_in_flight true window
              (Resolved 57))
    as (_ & _ & Hp & Hn & Hb & _).
  - reflexivity.
  - reflexivity.
  - reflexivity.
  - repeat constructor.
  - split; [exact Hn | split; [exact Hp | exact Hb]].
Defined.

(** Ticks alone leave nothing pending: no poll follows the one in
    flight. *)
Example ticks_are_dropped :
  let after := run [TimerTick; TimerTick; TimerTick;
                    ReadSettled (Resolved 57)] first_poll_in_flight in
  polls_started after = 1%nat
  /\ pendingForcedRefresh after = false
  /\ pollInFlight after = false.
Proof. repeat split; reflexivity. Qed.

(* ================================================================== *)
(** ** The poll interval *)


(** The interval of a built configuration is a finite number or
    [+Infinity], never [NaN]. *)
Lemma getPollIntervalMs_eq_itself (rawConfig : option raw_config) :
  num_eq (getPollIntervalMs (buildConfig rawConfig))
         (getPollIntervalMs (buildConfig rawConfig)) = true.
Proof.
  assert (Hpos : forall n,
             negb (is_NaN n) && negb (num_le n (of_Z 0)) = true ->
             num_eq (Math_max (of_Z MIN_POLL_INTERVAL_MS)
                              (Math_round (num_mul n (of_Z 1000))))
                    (Math_max (of_Z MIN_POLL_INTERVAL_MS)
                              (Math_round (num_mul n (of_Z 1000)))) = true).
  { intros [| | |q]; try discriminate; intros _.
    - reflexivity.
    - unfold num_mul, Math_round, Math_max, of_Z, num_eq.
      apply Qeq_bool_iff. reflexivity. }
  unfold getPollIntervalMs.
  destruct rawConfig as [raw|]; [|reflexivity].
  cbn [buildConfig pollIntervalSeconds].
  destruct (negb (is_NaN (Number_of (raw_pollIntervalSeconds raw)))
            && negb (num_le (Number_of (raw_pollIntervalSeconds raw))
                            (of_Z 0))) eqn:E.
  - apply Hpos. exact E.
  - reflexivity.
Qed.

(** [ensurePolling] alone, when the recorded interval differs from the
    desired one: the running timer is cleared, a timer is set at the
    desired interval and a poll is asked for. *)
Lemma ensurePolling_restarts_on_change (st : plugin_state) (t : number) :
  batteryKeys st <> [] ->
  pollTimer st = Some t ->
  num_eq (pollIntervalMs st) (getPollIntervalMs (pluginConfig st)) = false ->
  let desired := getPollIntervalMs (pluginConfig st) in
  ensurePolling st
  = pollAndUpdate true false
      (set_pollTimer (Some desired)
         (emit (SetInterval desired)
            (set_pollIntervalMs desired (emit (ClearInterval t) st)))).
Proof.
  intros Hkeys Htimer Hne desired. unfold ensurePolling.
  destruct (batteryKeys st) as [|entry rest] eqn:Ek; [contradiction|].
  cbn [map_size List.length Nat.eqb]. rewrite Htimer, Hne. reflexivity.
Qed.

(** [ensurePolling] alone, when the recorded interval is the desired
    one: nothing happens. *)
Lemma ensurePolling_same_interval (st : plugin_state) (t : number) :
  batteryKeys st <> [] ->
  pollTimer st = Some t ->
  num_eq (pollIntervalMs st) (getPollIntervalMs (pluginConfig st)) = true ->
  ensurePolling st = st.
Proof.
  intros Hkeys Htimer Heq. unfold ensurePolling.
  destruct (batteryKeys st) as [|entry rest] eqn:Ek; [contradiction|].
  cbn [map_size List.length Nat.eqb]. rewrite Htimer, Heq. reflexivity.
Qed.

(** The handler of a config update, while a timer runs and a key is shown:
    whatever the new configuration, the running timer stays, no timer call
    is made and no poll starts.  Only the recorded interval changes. *)
Lemma config_update_never_restarts (rawConfig : option raw_config)
  (st : plugin_state) (t : number) :
  batteryKeys st <> [] ->
  pollTimer st = Some t ->
  let st' := on_config_updated rawConfig st in
  pollTimer st' = Some t
  /\ pollIntervalMs st' = getPollIntervalMs (buildConfig rawConfig)
  /\ timer_calls (effects st') = timer_calls (effects st)
  /\ polls_started st' = polls_started st.
Proof.
  intros Hkeys Htimer. unfold on_config_updated.
  set (st2 := set_pollIntervalMs _ (set_pluginConfig _ st)).
  set (st3 := if configRetryTimer st2
              then set_configRetry false 0 (emit ClearTimeout st2)
              else set_configRetry false 0 st2).
  assert (H3 : batteryKeys st3 = batteryKeys st
               /\ pollTimer st3 = pollTimer st
               /\ pluginConfig st3 = buildConfig rawConfig
               /\ pollIntervalMs st3
                  = getPollIntervalMs (buildConfig rawConfig)
               /\ timer_calls (effects st3) = timer_calls (effects st)
               /\ polls_started st3 = polls_started st).
  { unfold st3. destruct (configRetryTimer st2).
    - unfold polls_started, timer_calls. cbn [effects set_configRetry emit].
      rewrite !filter_app, length_app, app_nil_r. cbn.
      repeat split; reflexivity || lia.
    - repeat split; reflexivity. }
  destruct H3 as (Hk & Ht & Hc & Hi & Htc & Hn).
  cbv zeta. rewrite (ensurePolling_same_interval st3 t).
  - rewrite Ht, Hi, Htc, Hn. auto.
  - now rewrite Hk.
  - now rewrite Ht.
  - rewrite Hi, Hc. apply getPollIntervalMs_eq_itself.
Qed.

(** C8 on the code: the plugin polls every 30 seconds and receives a
    configuration with a poll interval of 10 seconds.  The desired
    interval becomes 10000 ms, yet the timer created at 30000 ms is still
    the running one and the log has not grown: no timer was cleared, none
    set, no poll asked for.  The handler has assigned [pollIntervalMs]
    before [ensurePolling] compares it with the desired interval. *)
Theorem config_update_keeps_old_timer :
  let updated := step (ConfigUpdated (Some (raw_poll 10))) polling_every_30s in
  pollTimer polling_every_30s = Some (of_Z 30000)
  /\ pollInFlight polling_every_30s = false
  /\ pollIntervalSeconds (pluginConfig updated) = of_Z 10
  /\ getPollIntervalMs (pluginConfig updated) = of_Z 10000
  /\ pollIntervalMs updated = of_Z 10000
  /\ pollTimer updated = Some (of_Z 30000)
  /\ effects updated = effects polling_every_30s
  /\ timer_calls (effects updated) = [SetInterval (of_Z 30000)]
  /\ polls_started updated = polls_started polling_every_30s.
Proof. vm_compute. repeat split; reflexivity. Qed.

(* ================================================================== *)
(** ** The battery value *)

Lemma clamp_range (b : Z) : 0 <= clamp b <= 100.
Proof. unfold clamp. lia. Qed.

Lemma clamp_in_range (b : Z) : 0 <= b <= 100 -> clamp b = b.
Proof. unfold clamp. lia. Qed.

(** The status cached once a poll has ended. *)
Lemma resume_latestStatus (result : outcome) (st : plugin_state)
  (forceRedraw : bool) :
  awaiting st = Some forceRedraw ->
  latestStatus (pollAndUpdate_resume result st)
  = if negb (statusesEqual (status_of result) (latestStatus st))
       || forceRedraw
    then status_of result
    else latestStatus st.
Proof.
  intros Hawait. unfold pollAndUpdate_resume. rewrite Hawait.
  destruct (negb (statusesEqual (status_of result) (latestStatus st))
            || forceRedraw).
  - pose proof (renderAllKeys_same (set_latestStatus (status_of result) st))
      as (_ & _ & _ & _ & _ & Hs & _).
    destruct (pendingForcedRefresh _);
      rewrite ?pollAndUpdate_latestStatus; cbn; exact Hs.
  - destruct (pendingForcedRefresh _);
      rewrite ?pollAndUpdate_latestStatus; reflexivity.
Qed.

(** After a poll that resolved with [v], the cached status is a [Value]
    status of [v]. *)
Lemma resume_commits_value (v : Z) (st : plugin_state) (forceRedraw : bool) :
  awaiting st = Some forceRedraw ->
  exists label,
    latestStatus (pollAndUpdate_resume (Resolved v) st) = Value v label.
Proof.
  intros Hawait. rewrite (resume_latestStatus _ _ _ Hawait).
  destruct (negb (statusesEqual (status_of (Resolved v)) (latestStatus st))
            || forceRedraw) eqn:E.
  - eexists. reflexivity.
  - apply orb_false_iff in E. destruct E as [E _].
    apply negb_false_iff in E. unfold statusesEqual in E. cbn in E.
    destruct (latestStatus st) as [l|v' l|l d']; try discriminate.
    cbn in E. apply Z.eqb_eq in E. subst v'. eexists. reflexivity.
Qed.

(** C5.  On a report that is present, has at least four entries, starts
    with 0xF7 and holds the number [b] at offset 3, the attempt returns
    [min(100, max(0, b))]: a value between 0 and 100, equal to [b] when
    [b] is one, so 57 for 57, and 100 for 250.  The poll that resolves
    with it leaves a [Value] status of that value as the cached status. *)
Theorem battery_is_clamped_byte :
  forall (targetPath : string) (initDelay : number) (attempt : nat)
         (io : attempt_io) (st : hid_state) (report : list item) (b : Z),
    open_fault io = None ->
    send_fault io = None ->
    get_reply io = GetReturns (Some report) ->
    (4 <= List.length report)%nat ->
    nth 0 report NonNumber = Num 0xf7 ->
    nth 3 report NonNumber = Num b ->
    fst (run_attempt targetPath initDelay attempt io st) = Return (clamp b)
    /\ clamp b = Z.min 100 (Z.max 0 b)
    /\ 0 <= clamp b <= 100
    /\ (0 <= b <= 100 -> clamp b = b)
    /\ (b = 57 -> clamp b = 57)
    /\ (b = 250 -> clamp b = 100)
    /\ (forall (pst : plugin_state) (forceRedraw : bool),
          awaiting pst = Some forceRedraw ->
          exists label,
            latestStatus (step (ReadSettled (Resolved (clamp b))) pst)
            = Value (clamp b) label).
Proof.
  intros targetPath initDelay attempt io st report b
         Hopen Hsend Hget Hlen Hid Hb.
  assert (Hacc : report_rejected (Some report) = false)
    by (apply report_accepted_iff; exists report; auto).
  split; [|split; [reflexivity|split; [apply clamp_range|]]].
  - rewrite run_attempt_verdict. unfold attempt_verdict, run_attempt.
    rewrite Hopen, Hsend, Hget, Hacc, Hb. reflexivity.
  - split; [apply clamp_in_range|].
    split; [intros ->; reflexivity|].
    split; [intros ->; reflexivity|].
    intros pst forceRedraw. apply resume_commits_value.
Qed.

Lemma battery_is_clamped_byte_witness :
  fst (run_attempt "/dev/hidraw0" (of_Z 50) 3 (session recovering_env 3)
                   initial_state)
  = Return 100
  /\ exists label,
      latestStatus (step (ReadSettled (Resolved 100)) first_poll_in_flight)
      = Value 100 label.
Proof.
  destruct (battery_is_clamped_byte "/dev/hidraw0" (of_Z 50) 3
              (session recovering_env 3) initial_state (good_report 250) 250)
    as (Hret & _ & _ & _ & _ & H250 & Hcommit);
    try reflexivity.
  - simpl. lia.
  - rewrite (H250 eq_refl) in Hret, Hcommit.
    split; [exact Hret|]. apply (Hcommit first_poll_in_flight true).
    reflexivity.
Defined.

(** The two readings of the specification, through a whole read and the
    poll that asked for it. *)
Example reading_57_and_250 :
  map (fun b =>
         match readBatteryPercentage 1 example_config
                 {| enumeration := inr [];
                    session := fun _ => io_report (Some (good_report b)) |}
         with
         | Some (result, _) =>
             Some (latestStatus
                     (step (ReadSettled result) first_poll_in_flight))
         | None => None
         end) [57; 250]
  = [Some (Value 57 "57%"); Some (Value 100 "100%")].
Proof. vm_compute. reflexivity. Qed.

(* ================================================================== *)
(** ** Reachable states of the scheduler *)

Lemma guard_pollAndUpdate forceRedraw force st :
  guard_ok (guard st) -> guard_ok (guard (pollAndUpdate forceRedraw force st)).
Proof.
  unfold pollAndUpdate, guard.
  destruct (pollInFlight st) eqn:Ef, (awaiting st) eqn:Ea,
    (pendingForcedRefresh st) eqn:Ep, force,
    (map_size (batteryKeys st) =? 0)%nat;
    cbn; rewrite ?Ef, ?Ea, ?Ep; tauto.
Qed.

Lemma guard_resume result st :
  guard_ok (guard st) -> guard_ok (guard (pollAndUpdate_resume result st)).
Proof.
  intros Hok. unfold pollAndUpdate_resume.
  destruct (awaiting st) as [forceRedraw|]; [|exact Hok].
  match goal with
  | |- context [set_pollInFlight false None ?x] => set (shown := x)
  end.
  destruct (pendingForcedRefresh (set_pollInFlight false None shown)) eqn:E.
  - apply guard_pollAndUpdate. exact I.
  - unfold guard. rewrite E. exact I.
Qed.

Lemma guard_stopPolling st : guard (stopPolling st) = guard st.
Proof. unfold stopPolling. now destruct (pollTimer st). Qed.

Lemma guard_ensurePolling st :
  guard_ok (guard st) -> guard_ok (guard (ensurePolling st)).
Proof.
  intros Hok. unfold ensurePolling.
  destruct (map_size (batteryKeys st) =? 0)%nat;
    [now rewrite guard_stopPolling|].
  destruct (_ && _); [exact Hok|].
  apply guard_pollAndUpdate. now destruct (pollTimer st).
Qed.

Lemma guard_on_alive serialNumber keys st :
  guard_ok (guard st) -> guard_ok (guard (on_alive serialNumber keys st)).
Proof.
  intros Hok. unfold on_alive. apply guard_ensurePolling.
  revert st Hok. induction keys as [|k keys IH]; intros st Hok; [exact Hok|].
  cbn [fold_left]. apply IH.
  now destruct (String.eqb (cid k) BATTERY_CID).
Qed.

Lemma guard_step (e : event) (st : plugin_state) :
  guard_ok (guard st) -> guard_ok (guard (step e st)).
Proof.
  intros Hok. destruct e as [|rawConfig|serialNumber keys
                             |serialNumber data_key|serialNumber|result];
    cbn [step].
  - destruct (pollTimer st); [now apply guard_pollAndUpdate | exact Hok].
  - unfold on_config_updated. apply guard_ensurePolling.
    now destruct (configRetryTimer _).
  - now apply guard_on_alive.
  - unfold on_data. destruct data_key as [k|]; [|exact Hok].
    destruct (negb (String.eqb (cid k) BATTERY_CID)); [exact Hok|].
    apply guard_pollAndUpdate. now destruct (negb (map_has _ _)).
  - unfold on_destroy. destruct serialNumber as [serial|]; [|exact Hok].
    destruct (is_empty serial); [exact Hok|].
    destruct (map_size _ =? 0)%nat; [now rewrite guard_stopPolling|].
    exact Hok.
  - now apply guard_resume.
Qed.

(** In every state the plugin can reach, a poll is in flight exactly when
    a call of [pollAndUpdate] is suspended at its [await], and
    [pendingForcedRefresh] is set only while a poll is in flight: a poll
    always starts with the flag cleared. *)
Lemma reachable_guard (es : list event) : guard_ok (guard (run es initial)).
Proof.
  assert (H : forall st, guard_ok (guard st) -> guard_ok (guard (run es st))).
  { induction es as [|e es IH]; intros st Hok; [exact Hok|].
    change (run (e :: es) st) with (run es (step e st)).
    apply IH, guard_step, Hok. }
  apply H. exact I.
Qed.


(* ================================================================== *)
(** ** More on the read: range, bound, path *)

Lemma retry_loop_resolved_range fuel env p d rc :
  forall a le st v st',
    retry_loop fuel env p d rc a le st = Some (Resolved v, st') ->
    0 <= v <= 100.
Proof.
  induction fuel as [|fuel IH]; intros a le st v st' H; [discriminate|].
  rewrite retry_loop_S in H. destruct (num_le (of_nat a) rc).
  - pose proof (run_attempt_verdict p d a (session env a) st) as Hv.
    destruct (run_attempt p d a (session env a) st) as [[w|e] st1];
      simpl in Hv.
    + inversion H; subst.
      destruct (attempt_verdict_return _ _ _ (eq_sym Hv))
        as (_ & _ & l & b & _ & _ & _ & ->).
      apply clamp_range.
    + eapply IH; eauto.
  - discriminate.
Qed.

(** X1.  Whatever the configuration and whatever the device does, a read
    that resolves gives a value between 0 and 100. *)
Theorem resolved_value_in_range :
  forall (fuel : nat) (config : BatteryConfig) (env : hid_env) (v : Z)
         (st : hid_state),
    readBatteryPercentage fuel config env = Some (Resolved v, st) ->
    0 <= v <= 100.
Proof.
  intros fuel config env v st. unfold readBatteryPercentage.
  destruct (resolve_path config env initial_state) as [[e|targetPath] st0].
  - discriminate.
  - apply retry_loop_resolved_range.
Qed.

Lemma resolved_value_in_range_witness : 0 <= 100 <= 100.
Proof.
  apply (resolved_value_in_range 3 example_config recovering_env 100
           {| live := [];
              trace :=
                [EvOpen "/dev/hidraw0" false;
                 EvOpen "/dev/hidraw0" true;
                 EvSend 2 ANGRY_MIAO_INIT_FEATURE true;
                 EvWait (of_Z 50) true;
                 EvGet 2 0xf7 65;
                 EvClose 2 false;
                 EvClose 2 false;
                 EvOpen "/dev/hidraw0" true;
                 EvSend 3 ANGRY_MIAO_INIT_FEATURE true;
                 EvWait (of_Z 50) true;
                 EvGet 3 0xf7 65;
                 EvClose 3 false;
                 EvClose 3 false] |}).
  vm_compute. reflexivity.
Defined.

Lemma retry_loop_attempts_bound fuel env p d (N : nat) :
  forall a le st r st',
    retry_loop fuel env p d (of_nat N) a le st = Some (r, st') ->
    (a <= S N)%nat ->
    (attempts_made (trace st') + a <= attempts_made (trace st) + S N)%nat
    /\ (forall e, r = Rejected e ->
          (attempts_made (trace st') + a
           = attempts_made (trace st) + S N)%nat).
Proof.
  induction fuel as [|fuel IH]; intros a le st r st' H Ha; [discriminate|].
  rewrite retry_loop_S, num_le_of_nat in H.
  destruct (Nat.leb_spec a N) as [Hle|Hgt].
  - pose proof (run_attempt_attempts p d a (session env a) st) as Hn.
    destruct (run_attempt p d a (session env a) st) as [[v|e] st1];
      simpl in Hn.
    + inversion H; subst. split; [lia | discriminate].
    + destruct (IH _ _ _ _ _ H ltac:(lia)) as [Hb Heq].
      split; [lia|]. intros e' He'. specialize (Heq e' He'). lia.
  - inversion H; subst. split; [lia|]. intros; lia.
Qed.

(** X2.  With a retry count normalised to the integer [N], a read that
    settles has made at most [N] attempts; and when it rejects after its
    path was resolved, it has made exactly [N]: the loop gives up only
    when every attempt is used. *)
Theorem attempts_bounded_by_retryCount :
  forall (fuel : nat) (config : BatteryConfig) (env : hid_env) (N : nat)
         (r : outcome) (st : hid_state),
    normalised_retryCount config = of_nat N ->
    readBatteryPercentage fuel config env = Some (r, st) ->
    (attempts_made (trace st) <= N)%nat
    /\ (forall targetPath st0 e,
          resolve_path config env initial_state = (inr targetPath, st0) ->
          r = Rejected e ->
          attempts_made (trace st) = N).
Proof.
  intros fuel config env N r st HN. unfold readBatteryPercentage.
  destruct (resolve_path config env initial_state) as [[e|targetPath] st0]
    eqn:Hres; destruct (resolve_path_fresh _ _ _ _ Hres) as [Hzero _].
  - intros H; inversion H; subst. split; [lia|].
    intros targetPath st0' e' Habs. discriminate.
  - rewrite HN. intros H.
    destruct (retry_loop_attempts_bound _ _ _ _ _ _ _ _ _ _ H ltac:(lia))
      as [Hb Heq].
    split; [lia|]. intros targetPath' st0' e' _ Hr.
    specialize (Heq e' Hr). lia.
Qed.

Lemma attempts_bounded_by_retryCount_witness :
  (attempts_made
     (trace {| live := [];
               trace :=
                 [EvOpen "/dev/hidraw0" false;
                  EvOpen "/dev/hidraw0" true;
                  EvSend 2 ANGRY_MIAO_INIT_FEATURE false;
                  EvClose 2 false;
                  EvWait (of_Z 50) true;
                  EvOpen "/dev/hidraw0" true;
                  EvSend 3 ANGRY_MIAO_INIT_FEATURE true;
                  EvWait (of_Z 50) true;
                  EvGet 3 0xf7 65;
                  EvClose 3 false] |}) <= 3)%nat.
Proof.
  apply (attempts_bounded_by_retryCount 9 example_config failing_env 3
           (Rejected
              (Error "Failed to read feature report (attempt 3): timeout"))).
  - reflexivity.
  - vm_compute. reflexivity.
Defined.







(** X4.  When [hidPath] is blank and [HID.devices()] throws, the read
    rejects with "Unable to enumerate HID devices: " and the message
    thrown, before any attempt, whatever the retry count: nothing is
    opened and the failure is not retried. *)
Theorem enumeration_failure_is_not_retried :
  forall (fuel : nat) (config : BatteryConfig) (env : hid_env) (msg : string),
    is_empty (pinned_path config) = true ->
    enumeration env = inl msg ->
    readBatteryPercentage fuel config env
    = Some (Rejected (Error ("Unable to enumerate HID devices: " ++ msg)),
            log EvEnumerate initial_state)
    /\ attempts_made (trace (log EvEnumerate initial_state)) = 0%nat.
Proof.
  intros fuel config env msg Hpin Henum.
  unfold readBatteryPercentage, resolve_path, findDevicePath.
  rewrite Hpin, Henum. split; reflexivity.
Qed.

Lemma enumeration_failure_is_not_retried_witness :
  readBatteryPercentage 0 unpinned_config
    {| enumeration := inl "access denied"; session := session empty_env |}
  = Some (Rejected
            (Error "Unable to enumerate HID devices: access denied"),
          log EvEnumerate initial_state).
Proof.
  apply (enumeration_failure_is_not_retried 0 unpinned_config
           {| enumeration := inl "access denied";
              session := session empty_env |} "access denied");
    reflexivity.
Defined.

(** X5.  A path [findDevicePath] returns is never empty, and it is the
    path of an enumerated device whose ids are exactly the requested
    ones: a device with another vendor or product id is never chosen,
    whatever its interface or path. *)
Theorem located_path_is_of_a_matching_device :
  forall (env : hid_env) (vid pid : Z) (st : hid_state)
         (devices : list device_info) (p : string),
    enumeration env = inr devices ->
    fst (findDevicePath env vid pid st) = inr (Some p) ->
    is_empty p = false
    /\ exists info,
        In info devices
        /\ vendorId info = vid
        /\ productId info = pid
        /\ normalisePath (path info) = Some p.
Proof.
  intros env vid pid st devices p Henum. unfold findDevicePath.
  rewrite Henum. cbn [fst]. rewrite collect_matches_filter. intros H.
  injection H as Hsel.
  pose proof (select_match_policy
                (filter (fun info => ids_match vid pid info && has_path info)
                        devices)) as Hpol.
  rewrite Hsel in Hpol. unfold selected_by_policy in Hpol.
  destruct (filter _ devices) as [|first rest] eqn:Ef; [discriminate|].
  destruct Hpol as (c & Hin & Hp & _).
  rewrite <- Ef in Hin. apply filter_In in Hin.
  destruct Hin as [Hin Hc]. apply andb_true_iff in Hc.
  destruct Hc as [Hids Hpath]. injection Hp as ->. clear Hsel.
  unfold ids_match in Hids. apply andb_true_iff in Hids.
  destruct Hids as [Hv Hpd]. apply Z.eqb_eq in Hv, Hpd.
  unfold has_path in Hpath. unfold path_text.
  destruct (path c) as [|s|s|] eqn:Ep; try discriminate;
    apply negb_true_iff in Hpath; (split; [exact Hpath|]);
    exists c; unfold normalisePath; rewrite Ep, ?Hpath;
    repeat split; assumption || reflexivity.
Qed.

Lemma located_path_is_of_a_matching_device_witness :
  is_empty "/dev/hidraw1" = false
  /\ exists info,
      In info [pathless_interface_2; interface_0]
      /\ vendorId info = 0x3151
      /\ productId info = 0x5007
      /\ normalisePath (path info) = Some "/dev/hidraw1".
Proof.
  apply (located_path_is_of_a_matching_device two_interfaces_env
           0x3151 0x5007 initial_state); reflexivity.
Defined.

(* ================================================================== *)
(** ** The order of the calls *)

Lemma phase_run_app (ph : phase) (a b : list hid_event) :
  phase_run ph (a ++ b)
  = match phase_run ph a with
    | Some ph' => phase_run ph' b
    | None => None
    end.
Proof.
  revert ph. induction a as [|e a IH]; intros ph; simpl; [reflexivity|].
  destruct (phase_step ph e); [apply IH | reflexivity].
Qed.

Lemma run_attempt_protocol p d a io st closed :
  phase_run (Released None) (trace st) = Some (Released closed) ->
  exists closed',
    phase_run (Released None) (trace (snd (run_attempt p d a io st)))
    = Some (Released closed').
Proof.
  intros H.
  attempt_cases io; unfold safeClose, wait, log, opened;
    cbn [snd live trace]; rewrite !phase_run_app, H;
    destruct closed as [h|];
    do 3 (cbn; try unfold phase_step; rewrite ?Nat.eqb_refl); eauto.
Qed.

Lemma retry_loop_protocol fuel env p d rc :
  forall a le st r st' closed,
    retry_loop fuel env p d rc a le st = Some (r, st') ->
    phase_run (Released None) (trace st) = Some (Released closed) ->
    follows_protocol (trace st').
Proof.
  induction fuel as [|fuel IH]; intros a le st r st' closed H Hph;
    [discriminate|].
  rewrite retry_loop_S in H. destruct (num_le (of_nat a) rc).
  - destruct (run_attempt_protocol p d a (session env a) st closed Hph)
      as [closed' Hph'].
    destruct (run_attempt p d a (session env a) st) as [[v|e] st1];
      simpl in Hph'.
    + inversion H; subst. exists closed'. exact Hph'.
    + eapply IH; eauto.
  - inversion H; subst. exists closed. exact Hph.
Qed.

Lemma resolve_path_trace config env r st0 :
  resolve_path config env initial_state = (r, st0) ->
  trace st0 = [] \/ trace st0 = [EvEnumerate].
Proof.
  unfold resolve_path, findDevicePath.
  destruct (is_empty (pinned_path config)).
  - destruct (enumeration env) as [msg|devices].
    + intros H; inversion H; subst; auto.
    + destruct (select_match _); intros H; inversion H; subst; auto.
  - intros H; inversion H; subst; auto.
Qed.

(** X6.  The log of every read that settles follows the order of the
    protocol: a handle is opened only when none is open, so at most one
    is open at any time; the init feature goes to the handle just opened;
    the report is fetched only from a handle that took the init feature,
    and after the wait; nothing but a second [close] is called on a
    closed handle; and no handle is open at the end. *)
Theorem calls_follow_protocol :
  forall (fuel : nat) (config : BatteryConfig) (env : hid_env)
         (r : outcome) (st : hid_state),
    readBatteryPercentage fuel config env = Some (r, st) ->
    follows_protocol (trace st).
Proof.
  intros fuel config env r st. unfold readBatteryPercentage.
  destruct (resolve_path config env initial_state) as [[e|targetPath] st0]
    eqn:Hres;
    pose proof (resolve_path_trace _ _ _ _ Hres) as Htr.
  - intros H; inversion H; subst. exists None.
    destruct Htr as [-> | ->]; reflexivity.
  - intros H. eapply retry_loop_protocol with (closed := None); eauto.
    destruct Htr as [-> | ->]; reflexivity.
Qed.

Lemma calls_follow_protocol_witness :
  follows_protocol
    [EvOpen "/dev/hidraw0" false;
     EvOpen "/dev/hidraw0" true;
     EvSend 2 ANGRY_MIAO_INIT_FEATURE false;
     EvClose 2 false;
     EvWait (of_Z 50) true;
     EvOpen "/dev/hidraw0" true;
     EvSend 3 ANGRY_MIAO_INIT_FEATURE true;
     EvWait (of_Z 50) true;
     EvGet 3 0xf7 65;
     EvClose 3 false].
Proof.
  apply (calls_follow_protocol 4 example_config failing_env
           (Rejected
              (Error "Failed to read feature report (attempt 3): timeout"))
           {| live := [];
              trace :=
                [EvOpen "/dev/hidraw0" false;
                 EvOpen "/dev/hidraw0" true;
                 EvSend 2 ANGRY_MIAO_INIT_FEATURE false;
                 EvClose 2 false;
                 EvWait (of_Z 50) true;
                 EvOpen "/dev/hidraw0" true;
                 EvSend 3 ANGRY_MIAO_INIT_FEATURE true;
                 EvWait (of_Z 50) true;
                 EvGet 3 0xf7 65;
                 EvClose 3 false] |}).
  vm_compute. reflexivity.
Defined.

(** The order refuses a fetch that follows a close, and a second open
    while a handle is open. *)
Example protocol_refuses :
  phase_run (Released None)
    [EvOpen "p" true; EvSend 1 ANGRY_MIAO_INIT_FEATURE true;
     EvWait (of_Z 0) false; EvGet 1 0xf7 65; EvClose 1 false;
     EvGet 1 0xf7 65] = None
  /\ phase_run (Released None) [EvOpen "p" true; EvOpen "p" true] = None.
Proof. split; reflexivity. Qed.

Lemma run_attempt_waits p d a io st :
  List.length (waits_of (trace st)) = List.length (opens_of (trace st)) ->
  Forall (is_wait_of d) (waits_of (trace st)) ->
  List.length (waits_of (trace (snd (run_attempt p d a io st))))
  = List.length (opens_of (trace (snd (run_attempt p d a io st))))
  /\ Forall (is_wait_of d) (waits_of (trace (snd (run_attempt p d a io st)))).
Proof.
  intros Hn Hall. unfold waits_of, opens_of in *.
  attempt_cases io; unfold safeClose, wait, log, opened;
    cbn [snd live trace]; rewrite !filter_app, !length_app; cbn;
    rewrite ?app_nil_r; (split; [lia|]);
    repeat (apply Forall_app; split); auto; repeat constructor.
Qed.

Lemma retry_loop_waits fuel env p d rc :
  forall a le st r st',
    retry_loop fuel env p d rc a le st = Some (r, st') ->
    List.length (waits_of (trace st)) = List.length (opens_of (trace st)) ->
    Forall (is_wait_of d) (waits_of (trace st)) ->
    List.length (waits_of (trace st')) = List.length (opens_of (trace st'))
    /\ Forall (is_wait_of d) (waits_of (trace st')).
Proof.
  induction fuel as [|fuel IH]; intros a le st r st' H Hn Hall;
    [discriminate|].
  rewrite retry_loop_S in H. destruct (num_le (of_nat a) rc).
  - destruct (run_attempt_waits p d a (session env a) st Hn Hall)
      as [Hn' Hall'].
    destruct (run_attempt p d a (session env a) st) as [[v|e] st1];
      simpl in Hn', Hall'.
    + inversion H; subst. auto.
    + eapply IH; eauto.
  - inversion H; subst. auto.
Qed.

(** X7.  In the log of a read that settles there are as many waits as
    successful opens, and each wait is of the normalised [initDelayMs],
    with a timer exactly when that delay is positive: an attempt that
    opened the device waits once, an attempt whose open failed does not
    wait, and no other delay separates the attempts. *)
Theorem one_wait_per_opened_attempt :
  forall (fuel : nat) (config : BatteryConfig) (env : hid_env)
         (r : outcome) (st : hid_state),
    readBatteryPercentage fuel config env = Some (r, st) ->
    List.length (waits_of (trace st)) = List.length (opens_of (trace st))
    /\ Forall (is_wait_of (normalised_initDelay config))
              (waits_of (trace st)).
Proof.
  intros fuel config env r st. unfold readBatteryPercentage.
  destruct (resolve_path config env initial_state) as [[e|targetPath] st0]
    eqn:Hres;
    pose proof (resolve_path_trace _ _ _ _ Hres) as Htr.
  - intros H; inversion H; subst.
    destruct Htr as [-> | ->]; split; constructor.
  - intros H. eapply retry_loop_waits; eauto;
      destruct Htr as [-> | ->]; try reflexivity; constructor.
Qed.

Lemma one_wait_per_opened_attempt_witness :
  List.length
    (waits_of
       [EvOpen "/dev/hidraw0" false;
        EvOpen "/dev/hidraw0" true;
        EvSend 2 ANGRY_MIAO_INIT_FEATURE false;
        EvClose 2 false;
        EvWait (of_Z 50) true;
        EvOpen "/dev/hidraw0" true;
        EvSend 3 ANGRY_MIAO_INIT_FEATURE true;
        EvWait (of_Z 50) true;
        EvGet 3 0xf7 65;
        EvClose 3 false]) = 2%nat.
Proof.
  destruct (one_wait_per_opened_attempt 4 example_config failing_env
              (Rejected
                 (Error "Failed to read feature report (attempt 3): timeout"))
              {| live := [];
                 trace :=
                   [EvOpen "/dev/hidraw0" false;
                    EvOpen "/dev/hidraw0" true;
                    EvSend 2 ANGRY_MIAO_INIT_FEATURE false;
                    EvClose 2 false;
                    EvWait (of_Z 50) true;
                    EvOpen "/dev/hidraw0" true;
                    EvSend 3 ANGRY_MIAO_INIT_FEATURE true;
                    EvWait (of_Z 50) true;
                    EvGet 3 0xf7 65;
                    EvClose 3 false] |}) as [Hn _].
  - vm_compute. reflexivity.
  - exact Hn.
Defined.

(* ================================================================== *)
(** ** The hex encoding of a report *)

Lemma hex_digit_inj (a b : Z) :
  0 <= a < 16 -> 0 <= b < 16 -> hex_digit a = hex_digit b -> a = b.
Proof.
  intros Ha Hb H.
  assert (H' : nat_of_ascii
                 (ascii_of_nat
                    (Z.to_nat (if a <? 10 then 48 + a else 87 + a)))
               = nat_of_ascii
                   (ascii_of_nat
                      (Z.to_nat (if b <? 10 then 48 + b else 87 + b))))
    by (unfold hex_digit in H; congruence).
  rewrite !nat_ascii_embedding in H'
    by (destruct (a <? 10), (b <? 10); lia).
  destruct (Z.ltb_spec a 10), (Z.ltb_spec b 10); lia.
Qed.

Lemma hex_pair_inj (a b a' b' : Z) (r r' : string) :
  (hex_digit a ++ hex_digit b) ++ r = (hex_digit a' ++ hex_digit b') ++ r' ->
  hex_digit a = hex_digit a' /\ hex_digit b = hex_digit b' /\ r = r'.
Proof.
  unfold hex_digit. cbn [append]. intros H. repeat split; congruence.
Qed.

Lemma hex_of_cons (x : item) (rest : list item) :
  hex_of (x :: rest)
  = String (ascii_of_nat
              (Z.to_nat (if Z.shiftr (to_uint8 x) 4 <? 10
                         then 48 + Z.shiftr (to_uint8 x) 4
                         else 87 + Z.shiftr (to_uint8 x) 4)))
      (String (ascii_of_nat
                 (Z.to_nat (if Z.land (to_uint8 x) 15 <? 10
                            then 48 + Z.land (to_uint8 x) 15
                            else 87 + Z.land (to_uint8 x) 15)))
         (hex_of rest)).
Proof. reflexivity. Qed.

Lemma nibbles (z : Z) :
  0 <= z < 256 ->
  0 <= Z.shiftr z 4 < 16 /\ 0 <= Z.land z 15 < 16
  /\ z = 16 * Z.shiftr z 4 + Z.land z 15.
Proof.
  intros Hz. rewrite Z.shiftr_div_pow2 by lia.
  change 15 with (Z.ones 4). rewrite Z.land_ones by lia.
  change (2 ^ 4) with 16.
  pose proof (Z.div_mod z 16 ltac:(lia)).
  pose proof (Z.mod_pos_bound z 16 ltac:(lia)).
  assert (0 <= z / 16 < 16)
    by (split; [apply Z.div_pos; lia | apply Z.div_lt_upper_bound; lia]).
  lia.
Qed.

Lemma to_uint8_byte (z : Z) : 0 <= z < 256 -> to_uint8 (Num z) = z.
Proof.
  intros Hz. unfold to_uint8. change 255 with (Z.ones 8).
  rewrite Z.land_ones by lia. apply Z.mod_small. lia.
Qed.

(** X8.  The payload of the error "Unexpected feature report" has two
    characters per entry of the report, and two reports made of bytes
    that give the same payload are the same report: the message tells
    exactly what the device answered. *)
Theorem hex_payload_identifies_report :
  (forall data, String.length (hex_of data) = (2 * List.length data)%nat)
  /\ (forall data data',
        Forall is_byte data -> Forall is_byte data' ->
        hex_of data = hex_of data' -> data = data').
Proof.
  split.
  - induction data as [|x rest IH]; [reflexivity|].
    rewrite hex_of_cons. cbn [String.length List.length]. rewrite IH. lia.
  - induction data as [|x rest IH]; intros [|x' rest'] Hb Hb' H.
    + reflexivity.
    + rewrite hex_of_cons in H. discriminate.
    + rewrite hex_of_cons in H. discriminate.
    + inversion Hb as [|? ? Hx Hrest]; subst.
      inversion Hb' as [|? ? Hx' Hrest']; subst.
      destruct x as [z|]; [|contradiction].
      destruct x' as [z'|]; [|contradiction].
      simpl in Hx, Hx'.
      change (hex_of (Num z :: rest))
        with ((hex_digit (Z.shiftr (to_uint8 (Num z)) 4)
               ++ hex_digit (Z.land (to_uint8 (Num z)) 15))
              ++ hex_of rest) in H.
      change (hex_of (Num z' :: rest'))
        with ((hex_digit (Z.shiftr (to_uint8 (Num z')) 4)
               ++ hex_digit (Z.land (to_uint8 (Num z')) 15))
              ++ hex_of rest') in H.
      rewrite !to_uint8_byte in H by assumption.
      destruct (nibbles z Hx) as (Hh & Hl & Hz).
      destruct (nibbles z' Hx') as (Hh' & Hl' & Hz').
      apply hex_pair_inj in H. destruct H as (H1 & H2 & H3).
      apply hex_digit_inj in H1; [|assumption..].
      apply hex_digit_inj in H2; [|assumption..].
      f_equal; [f_equal; lia | apply IH; auto].
Qed.

Lemma hex_payload_identifies_report_witness :
  [Num 0xf7; Num 0; Num 9] = [Num 0xf7; Num 0; Num 9].
Proof.
  destruct hex_payload_identifies_report as [_ H].
  apply H; [| | reflexivity];
    repeat constructor; simpl; lia.
Defined.

(* ================================================================== *)
(** ** Strings *)

Lemma reverse_involutive (s : string) : reverse (reverse s) = s.
Proof.
  unfold reverse.
  rewrite list_ascii_of_string_of_list_ascii, rev_involutive.
  apply string_of_list_ascii_of_string.
Qed.

Lemma string_forall_forallb (P : ascii -> bool) (s : string) :
  string_forall P s = forallb P (list_ascii_of_string s).
Proof. induction s as [|c s IH]; simpl; [reflexivity | now rewrite IH]. Qed.

Lemma forallb_rev {A} (P : A -> bool) (l : list A) :
  forallb P (rev l) = forallb P l.
Proof.
  induction l as [|x l IH]; simpl; [reflexivity|].
  rewrite forallb_app, IH. simpl. rewrite andb_true_r. apply andb_comm.
Qed.

Lemma string_forall_reverse (P : ascii -> bool) (s : string) :
  string_forall P (reverse s) = string_forall P s.
Proof.
  rewrite !string_forall_forallb. unfold reverse.
  rewrite list_ascii_of_string_of_list_ascii. apply forallb_rev.
Qed.


Lemma string_forall_impl (P Q : ascii -> bool) (s : string) :
  (forall c, P c = true -> Q c = true) ->
  string_forall P s = true -> string_forall Q s = true.
Proof.
  intros HPQ. induction s as [|c s IH]; simpl; [reflexivity|].
  rewrite !andb_true_iff. intros [Hc Hs]. auto.
Qed.

Lemma trimStart_id (P : ascii -> bool) (s : string) :
  (forall c, P c = true -> is_space c = false) ->
  string_forall P s = true -> trimStart s = s.
Proof.
  intros HP. destruct s as [|c s]; [reflexivity|]. simpl.
  rewrite andb_true_iff. intros [Hc _]. now rewrite (HP c Hc).
Qed.



(** What holds of a plain character. *)
Lemma is_plain_facts (c : ascii) :
  is_plain c = true ->
  is_space c = false /\ lower c = c /\ c <> "h"%char.
Proof.
  intros H.
  destruct c as [[|] [|] [|] [|] [|] [|] [|] [|]];
    try (vm_compute in H; discriminate);
    repeat split; try reflexivity; discriminate.
Qed.

Lemma is_hex_digit_plain (c : ascii) :
  is_hex_digit c = true -> is_plain c = true.
Proof. unfold is_plain. now intros ->. Qed.

Lemma is_hex_digit_not_x (c : ascii) :
  is_hex_digit c = true -> c <> "x"%char /\ c <> "X"%char.
Proof.
  intros H. split; intros ->; vm_compute in H; discriminate.
Qed.

Lemma prefix_cons (a b : ascii) (s1 s2 : string) :
  prefix (String a s1) (String b s2)
  = if Ascii.ascii_dec a b then prefix s1 s2 else false.
Proof. reflexivity. Qed.


(** A string of hexadecimal digits has no "0x" in front. *)
Lemma prefix_0x_false (s : string) :
  string_forall is_hex_digit s = true ->
  prefix "0x" s = false /\ prefix "0X" s = false.
Proof.
  intros Hs. destruct s as [|c [|c2 s]].
  - split; reflexivity.
  - rewrite !prefix_cons.
    destruct (Ascii.ascii_dec "0" c); split; reflexivity.
  - simpl in Hs. apply andb_true_iff in Hs. destruct Hs as [_ Hs].
    apply andb_true_iff in Hs. destruct Hs as [Hc2 _].
    destruct (is_hex_digit_not_x c2 Hc2) as [Hx HX].
    rewrite !prefix_cons.
    destruct (Ascii.ascii_dec "0" c); [|split; reflexivity].
    destruct (Ascii.ascii_dec "x" c2) as [E|_]; [now subst c2|].
    destruct (Ascii.ascii_dec "X" c2) as [E|_]; [now subst c2|].
    split; reflexivity.
Qed.

(** [parseInt] on digits alone: no white space, no sign, no prefix. *)
Lemma parseInt_digits (s : string) (radix : Z) :
  string_forall is_hex_digit s = true ->
  parseInt s radix = parse_digits radix s None.
Proof.
  intros Hs. destruct (prefix_0x_false s Hs) as [Hx HX].
  destruct s as [|c s].
  - unfold parseInt. simpl. destruct (radix =? 16); reflexivity.
  - assert (Hc : is_hex_digit c = true)
      by (simpl in Hs; now apply andb_true_iff in Hs).
    assert (E : parseInt (String c s) radix
                = option_map (fun m => m)
                    (parse_digits radix
                       (if (radix =? 16)
                           && (prefix "0x" (String c s)
                               || prefix "0X" (String c s))
                        then slice_from 2 (String c s)
                        else String c s) None)).
    { unfold parseInt.
      destruct c as [[|] [|] [|] [|] [|] [|] [|] [|]];
        try (vm_compute in Hc; discriminate); reflexivity. }
    rewrite E, Hx, HX, andb_false_r.
    now destruct (parse_digits radix (String c s) None).
Qed.

(* ================================================================== *)
(** ** Printed integers read back *)

Lemma parse_digits_cons (radix : Z) (c : ascii) (s : string)
  (acc : option Z) (v : Z) :
  digit_value c = Some v -> (v <? radix) = true ->
  parse_digits radix (String c s) acc
  = parse_digits radix s
      (Some (match acc with
             | Some a => a * radix + v
             | None => v
             end)).
Proof. intros Hc Hv. cbn [parse_digits]. now rewrite Hc, Hv. Qed.

Ltac read_digit radix :=
  match goal with
  | |- context [parse_digits radix (String ?c ?s) ?acc] =>
      let v := eval vm_compute in (digit_value c) in
      match v with
      | Some ?x => rewrite (parse_digits_cons radix c s acc x eq_refl eq_refl)
      end
  end.










Lemma parse_dec_acc (d : Decimal.uint) :
  forall p,
    parse_digits 10 (DecimalString.NilEmpty.string_of_uint d)
                 (Some (Z.pos p))
    = Some (Z.pos (Pos.of_uint_acc d p)).
Proof.
  induction d as [|d IH|d IH|d IH|d IH|d IH|d IH|d IH|d IH|d IH|d IH];
    intros p;
    cbn [DecimalString.NilEmpty.string_of_uint Pos.of_uint_acc];
    [reflexivity|..];
    read_digit 10; rewrite <- IH; do 2 f_equal; lia.
Qed.

Lemma parse_dec_uint (d : Decimal.uint) :
  parse_digits 10 (DecimalString.NilEmpty.string_of_uint d) (Some 0)
  = Some (Z.of_uint d).
Proof.
  induction d as [|d IH|d IH|d IH|d IH|d IH|d IH|d IH|d IH|d IH|d IH];
    cbn [DecimalString.NilEmpty.string_of_uint];
    [reflexivity | read_digit 10; exact IH | ..];
    read_digit 10; apply parse_dec_acc.
Qed.

Lemma parse_dec_nilzero (d : Decimal.uint) :
  parse_digits 10 (DecimalString.NilZero.string_of_uint d) None
  = Some (Z.of_uint d).
Proof.
  destruct d;
    unfold DecimalString.NilZero.string_of_uint;
    cbn [DecimalString.NilEmpty.string_of_uint];
    try reflexivity;
    read_digit 10;
    first [ apply parse_dec_acc
          | match goal with
            | |- parse_digits 10 (_ ?u) _ = _ => exact (parse_dec_uint u)
            end ].
Qed.

Lemma dec_string_digits (d : Decimal.uint) :
  string_forall is_hex_digit (DecimalString.NilZero.string_of_uint d) = true
  /\ is_empty (DecimalString.NilZero.string_of_uint d) = false.
Proof.
  assert (H : forall u,
             string_forall is_hex_digit
               (DecimalString.NilEmpty.string_of_uint u) = true)
    by (induction u; simpl; auto).
  destruct d; (split; [try apply H|]); reflexivity.
Qed.

Lemma toString10_cases (z : Z) :
  (exists u, toString10 z = DecimalString.NilZero.string_of_uint u
             /\ Z.of_uint u = z)
  \/ (exists u, toString10 z
                = String "-" (DecimalString.NilZero.string_of_uint u)
                /\ - Z.of_uint u = z).
Proof.
  destruct z as [|p|p].
  - left. exists Decimal.zero. split; reflexivity.
  - left. exists (Pos.to_uint p). split; [reflexivity|].
    exact (DecimalZ.of_to (Z.pos p)).
  - right. exists (Pos.to_uint p). split; [reflexivity|].
    exact (DecimalZ.of_to (Z.neg p)).
Qed.

(** The characters of a printed integer are plain, and it is not empty. *)
Lemma toString10_plain (z : Z) :
  string_forall is_plain (toString10 z) = true
  /\ is_empty (toString10 z) = false.
Proof.
  destruct (toString10_cases z) as [(u & -> & _) | (u & -> & _)];
    destruct (dec_string_digits u) as [Hd He].
  - split; [|exact He].
    exact (string_forall_impl _ _ _ is_hex_digit_plain Hd).
  - split; [|reflexivity]. cbn [string_forall].
    rewrite (string_forall_impl _ _ _ is_hex_digit_plain Hd). reflexivity.
Qed.

(** [parseInt] reads a printed integer back. *)
Lemma parseInt_toString10 (z : Z) : parseInt (toString10 z) 10 = Some z.
Proof.
  destruct (toString10_cases z) as [(u & -> & Hu) | (u & -> & Hu)];
    destruct (dec_string_digits u) as [Hd _].
  - rewrite (parseInt_digits _ 10 Hd), parse_dec_nilzero. now rewrite Hu.
  - change (parseInt (String "-" (DecimalString.NilZero.string_of_uint u)) 10)
      with (option_map (fun m => - m)
              (parse_digits 10 (DecimalString.NilZero.string_of_uint u) None)).
    rewrite parse_dec_nilzero. cbn [option_map]. now rewrite Hu.
Qed.






(* ================================================================== *)
(** ** The helper script variant *)

Lemma list_ascii_of_string_app (a b : string) :
  list_ascii_of_string (a ++ b)
  = (list_ascii_of_string a ++ list_ascii_of_string b)%list.
Proof. induction a as [|c a IH]; simpl; [reflexivity | now rewrite IH]. Qed.

Lemma string_of_list_ascii_app (l1 l2 : list ascii) :
  string_of_list_ascii (l1 ++ l2)
  = string_of_list_ascii l1 ++ string_of_list_ascii l2.
Proof. induction l1 as [|c l1 IH]; simpl; [reflexivity | now rewrite IH]. Qed.

Lemma reverse_app (a b : string) :
  reverse (a ++ b) = reverse b ++ reverse a.
Proof.
  unfold reverse.
  now rewrite list_ascii_of_string_app, rev_app_distr,
    string_of_list_ascii_app.
Qed.

(** The line feed at the end of a printed value is trimmed away. *)
Lemma trim_line (s : string) :
  string_forall is_plain s = true -> is_empty s = false ->
  trim (s ++ line_feed) = s.
Proof.
  intros Hp He. unfold trim, trimEnd.
  assert (Hs : trimStart (s ++ line_feed) = s ++ line_feed).
  { destruct s as [|c s]; [discriminate|]. simpl in *.
    apply andb_true_iff in Hp. destruct Hp as [Hc _].
    destruct (is_plain_facts c Hc) as (-> & _). reflexivity. }
  rewrite Hs, reverse_app.
  change (reverse line_feed ++ reverse s)
    with (String (ascii_of_nat 10) (reverse s)).
  change (trimStart (String (ascii_of_nat 10) (reverse s)))
    with (trimStart (reverse s)).
  rewrite (trimStart_id is_plain)
    by (try (now rewrite string_forall_reverse);
        intros c Hc; apply is_plain_facts, Hc).
  apply reverse_involutive.
Qed.

(** X12.  In the variant that runs a helper script, the promise resolves
    only when the script ended without error, and then with a value
    between 0 and 100; and a script that prints an integer on a line of
    its own makes it resolve with that integer clamped to that range,
    whatever it wrote on the error stream. *)
Theorem helper_output_is_read_and_clamped :
  (forall pythonExecutable error stdout stderr v,
      ExecPlugin.on_exit pythonExecutable error stdout stderr = Resolved v ->
      error = None /\ 0 <= v <= 100)
  /\ (forall pythonExecutable stderr z,
        ExecPlugin.on_exit pythonExecutable None
          (toString10 z ++ line_feed) stderr
        = Resolved (clamp z)).
Proof.
  split.
  - intros pythonExecutable error stdout stderr v. unfold ExecPlugin.on_exit.
    destruct error as [e|]; [discriminate|].
    destruct (parseInt (trim stdout) 10) as [n|]; [|discriminate].
    intros H. injection H as <-. split; [reflexivity | lia].
  - intros pythonExecutable stderr z. unfold ExecPlugin.on_exit.
    destruct (toString10_plain z) as [Hp He].
    rewrite (trim_line _ Hp He), parseInt_toString10.
    unfold clamp. f_equal. lia.
Qed.

Lemma helper_output_is_read_and_clamped_witness :
  None = (None : option ExecPlugin.exec_error) /\ 0 <= 57 <= 100.
Proof.
  destruct helper_output_is_read_and_clamped as [H _].
  apply (H "python3" None (toString10 57 ++ line_feed) "" 57).
  vm_compute. reflexivity.
Defined.

(* ================================================================== *)
(** ** The configuration the plugin builds *)

Lemma Math_floor_at_least_1 (n : number) :
  is_NaN n = false -> num_le (of_Z 1) n = true ->
  Math_floor n = PosInf \/ exists z, 1 <= z /\ Math_floor n = of_Z z.
Proof.
  destruct n as [| | |q]; try discriminate; intros _ H.
  - now left.
  - right. exists (Qfloor q). split; [|reflexivity].
    unfold num_le, of_Z in H. apply Qle_bool_iff in H.
    apply Qfloor_resp_le in H. now rewrite Qfloor_Z in H.
Qed.

Lemma normalised_retryCount_integer (config : BatteryConfig) (z : Z) :
  retryCount config = Some (of_Z z) -> 1 <= z ->
  normalised_retryCount config = of_Z z.
Proof.
  intros H Hz.
  replace (of_Z z) with (of_nat (Z.to_nat z)) in *
    by (unfold of_nat; now rewrite Z2Nat.id by lia).
  apply normalised_retryCount_valid; [exact H | lia].
Qed.

Lemma normalised_of_valid (n : number) :
  n = PosInf \/ (exists z, 1 <= z /\ n = of_Z z) ->
  Math_max (of_Z 1) (Math_trunc (or_else (Some n) (of_Z 1))) = n.
Proof.
  intros [-> | (z & Hz & ->)]; [reflexivity|].
  apply (normalised_retryCount_integer
           (pinned_config "" None (Some (of_Z z))) z);
    [reflexivity | exact Hz].
Qed.

(** X13.  Whatever object a config event delivers, the configuration
    built from it is valid: the poll interval is a positive number, the
    init delay a number that is not negative, the retry count an integer
    of at least 1 or [+Infinity], and [hidPath] a string.  The reader's
    own normalisation then leaves that retry count as it is. *)
Theorem built_config_is_valid :
  forall rawConfig : option raw_config,
    (is_NaN (pollIntervalSeconds (buildConfig rawConfig)) = false
     /\ num_le (pollIntervalSeconds (buildConfig rawConfig)) (of_Z 0) = false)
    /\ (exists d, initDelayMs (buildConfig rawConfig) = Some d
                  /\ is_NaN d = false /\ num_le (of_Z 0) d = true)
    /\ (exists n, retryCount (buildConfig rawConfig) = Some n
                  /\ (n = PosInf \/ exists z, 1 <= z /\ n = of_Z z)
                  /\ normalised_retryCount (buildConfig rawConfig) = n)
    /\ (exists p, hidPath (buildConfig rawConfig) = Some p).
Proof.
  intros rawConfig.
  assert (H3 : of_Z 3 = PosInf \/ exists z, 1 <= z /\ of_Z 3 = of_Z z)
    by (right; exists 3; split; [lia | reflexivity]).
  assert (Hrc : exists n, retryCount (buildConfig rawConfig) = Some n
                          /\ (n = PosInf \/ exists z, 1 <= z /\ n = of_Z z)).
  { destruct rawConfig as [raw|]; [|exists (of_Z 3); auto].
    cbn [buildConfig retryCount].
    destruct (raw_retryCount raw) as [n|]; [|exists (of_Z 3); auto].
    destruct (negb (is_NaN n) && num_le (of_Z 1) n) eqn:E;
      [|exists (of_Z 3); auto].
    apply andb_true_iff in E. destruct E as [E1 E2].
    apply negb_true_iff in E1.
    exists (Math_floor n). split; [reflexivity|].
    now apply Math_floor_at_least_1. }
  split; [|split; [|split]].
  - destruct rawConfig as [raw|]; [|split; reflexivity].
    cbn [buildConfig pollIntervalSeconds].
    destruct (negb (is_NaN (Number_of (raw_pollIntervalSeconds raw)))
              && negb (num_le (Number_of (raw_pollIntervalSeconds raw))
                              (of_Z 0))) eqn:E.
    + apply andb_true_iff in E. destruct E as [E1 E2].
      now apply negb_true_iff in E1, E2.
    + split; reflexivity.
  - assert (Hdef : exists d, Some (of_Z 50) = Some d
                             /\ is_NaN d = false
                             /\ num_le (of_Z 0) d = true)
      by (exists (of_Z 50); repeat split; reflexivity).
    destruct rawConfig as [raw|]; [|exact Hdef].
    cbn [buildConfig initDelayMs].
    destruct (raw_initDelayMs raw) as [d|]; [|exact Hdef].
    destruct (negb (is_NaN d) && num_le (of_Z 0) d) eqn:E; [|exact Hdef].
    apply andb_true_iff in E. destruct E as [E1 E2].
    apply negb_true_iff in E1. exists d. auto.
  - destruct Hrc as (n & Hn & Hshape). exists n.
    split; [exact Hn|]. split; [exact Hshape|].
    unfold normalised_retryCount. rewrite Hn.
    now apply normalised_of_valid.
  - destruct rawConfig as [raw|]; [|exists ""; reflexivity].
    cbn [buildConfig hidPath].
    destruct (raw_hidPath raw); [eauto | exists ""; reflexivity].
Qed.


(* ================================================================== *)
(** ** What the scheduler leaves alone *)

Lemma same_store_refl (st : plugin_state) : same_store st st.
Proof. unfold same_store. tauto. Qed.

Lemma same_store_trans (a b c : plugin_state) :
  same_store a b -> same_store b c -> same_store a c.
Proof.
  unfold same_store. intros H1 H2.
  decompose [and] H1. decompose [and] H2. repeat split; congruence.
Qed.

Lemma pollAndUpdate_store forceRedraw force st :
  same_store (pollAndUpdate forceRedraw force st) st
  /\ pollTimer (pollAndUpdate forceRedraw force st) = pollTimer st.
Proof.
  unfold pollAndUpdate, same_store.
  destruct (pollInFlight st); [destruct force|];
    [| |destruct (map_size (batteryKeys st) =? 0)%nat];
    repeat split; reflexivity.
Qed.

Lemma stopPolling_store st : same_store (stopPolling st) st.
Proof.
  unfold stopPolling, same_store.
  destruct (pollTimer st); repeat split; reflexivity.
Qed.

Lemma ensurePolling_store st : same_store (ensurePolling st) st.
Proof.
  unfold ensurePolling.
  destruct (map_size (batteryKeys st) =? 0)%nat; [apply stopPolling_store|].
  destruct (_ && _); [apply same_store_refl|].
  eapply same_store_trans; [apply pollAndUpdate_store|].
  unfold same_store. destruct (pollTimer st); repeat split; reflexivity.
Qed.

(** After [ensurePolling] a timer runs exactly when a key is shown. *)
Lemma ensurePolling_timer st :
  (batteryKeys st = [] -> pollTimer (ensurePolling st) = None)
  /\ (batteryKeys st <> [] -> pollTimer (ensurePolling st) <> None).
Proof.
  unfold ensurePolling. split.
  - intros Hk. rewrite Hk. cbn [map_size List.length Nat.eqb].
    unfold stopPolling. destruct (pollTimer st) eqn:Et; [reflexivity|exact Et].
  - intros Hk. destruct (batteryKeys st) as [|entry rest] eqn:Ek;
      [contradiction|]. cbn [map_size List.length Nat.eqb].
    destruct (pollTimer st) as [t|] eqn:Et; cbn [andb].
    + destruct (num_eq _ _); [now rewrite Et|].
      now rewrite (proj2 (pollAndUpdate_store _ _ _)).
    + now rewrite (proj2 (pollAndUpdate_store _ _ _)).
Qed.

Lemma ensurePolling_needs_keys st : timer_needs_keys (ensurePolling st).
Proof.
  unfold timer_needs_keys.
  destruct (ensurePolling_store st) as (_ & Hk & _). rewrite Hk.
  destruct (batteryKeys st) as [|entry rest] eqn:Ek; [|discriminate].
  intros H. elim H. now apply ensurePolling_timer.
Qed.

Lemma draw_all_store (s : status) (keys : list (string * (string * key))) :
  forall st,
    same_store
      (fold_left (fun acc entry =>
                    drawKey (fst (snd entry)) (snd (snd entry)) s acc)
                 keys st) st
    /\ pollTimer
         (fold_left (fun acc entry =>
                       drawKey (fst (snd entry)) (snd (snd entry)) s acc)
                    keys st) = pollTimer st.
Proof.
  induction keys as [|entry keys IH]; intros st; simpl.
  - split; [apply same_store_refl|reflexivity].
  - destruct (IH (drawKey (fst (snd entry)) (snd (snd entry)) s st))
      as [Hs Ht].
    split; [|now rewrite Ht].
    eapply same_store_trans; [apply Hs|].
    unfold same_store. repeat split; reflexivity.
Qed.

(** The end of a poll changes nothing of the store but the status. *)
Lemma resume_store result st :
  pluginConfig (pollAndUpdate_resume result st) = pluginConfig st
  /\ batteryKeys (pollAndUpdate_resume result st) = batteryKeys st
  /\ pollTimer (pollAndUpdate_resume result st) = pollTimer st
  /\ configRetryTimer (pollAndUpdate_resume result st) = configRetryTimer st
  /\ configRetryAttempts (pollAndUpdate_resume result st)
     = configRetryAttempts st.
Proof.
  unfold pollAndUpdate_resume.
  destruct (awaiting st) as [forceRedraw|]; [|repeat split; reflexivity].
  match goal with
  | |- context [set_pollInFlight false None ?x] => set (shown := x)
  end.
  assert (Hs : pluginConfig shown = pluginConfig st
               /\ batteryKeys shown = batteryKeys st
               /\ pollTimer shown = pollTimer st
               /\ configRetryTimer shown = configRetryTimer st
               /\ configRetryAttempts shown = configRetryAttempts st).
  { unfold shown. destruct (_ || _); [|repeat split; reflexivity].
    destruct (draw_all_store (status_of result) (batteryKeys st)
                (set_latestStatus (status_of result) st))
      as ((Hc & Hk & _ & Hr & Ha) & Ht).
    unfold renderAllKeys. cbn [latestStatus batteryKeys set_latestStatus].
    repeat split; assumption. }
  destruct Hs as (Hc & Hk & Ht & Hr & Ha).
  destruct (pendingForcedRefresh _).
  - destruct (pollAndUpdate_store true false
                (set_pendingForcedRefresh false
                   (set_pollInFlight false None shown)))
      as ((Hc' & Hk' & _ & Hr' & Ha') & Ht').
    rewrite Hc', Hk', Ht', Hr', Ha'. cbn. auto.
  - cbn. auto.
Qed.

(* ================================================================== *)
(** ** Invariants of the plugin *)

Lemma step_all_needs_keys (e : lifecycle_event) (st : plugin_state) :
  timer_needs_keys st -> timer_needs_keys (step_all e st).
Proof.
  intros Hinv.
  destruct e as [[|rawConfig|serialNumber keys|serialNumber data_key
                  |serialNumber|result]|result|]; cbn [step_all step].
  - destruct (pollTimer st) eqn:Et; [|exact Hinv].
    unfold timer_needs_keys in *.
    destruct (pollAndUpdate_store false false st) as ((_ & Hk & _) & Ht).
    rewrite Hk, Ht. exact Hinv.
  - apply ensurePolling_needs_keys.
  - apply ensurePolling_needs_keys.
  - unfold on_data. destruct data_key as [k|]; [|exact Hinv].
    destruct (negb (String.eqb (cid k) BATTERY_CID)); [exact Hinv|].
    unfold timer_needs_keys. intros _.
    rewrite (proj1 (proj2 (proj1 (pollAndUpdate_store _ _ _)))).
    destruct (map_has _ _) eqn:Eh; cbn.
    + eapply map_has_not_nil; eauto.
    + apply map_set_not_nil.
  - unfold on_destroy. destruct serialNumber as [serial|]; [|exact Hinv].
    destruct (is_empty serial); [exact Hinv|].
    cbn [batteryKeys set_batteryKeys].
    destruct (filter _ (batteryKeys st)) as [|entry rest] eqn:Ef;
      cbn [map_size List.length Nat.eqb].
    + unfold timer_needs_keys, stopPolling.
      cbn [pollTimer set_batteryKeys].
      destruct (pollTimer st) eqn:Et; cbn [pollTimer set_pollTimer].
      * intros H. now elim H.
      * change (pollTimer st <> None -> @nil (string * (string * key)) <> []).
        rewrite Et. intros H. now elim H.
    + unfold timer_needs_keys. cbn. discriminate.
  - unfold timer_needs_keys in *.
    destruct (resume_store result st) as (_ & Hk & Ht & _).
    now rewrite Hk, Ht.
  - unfold loadInitialConfig_resume.
    destruct result as [error|stored].
    + destruct (if isTransportNotReadyError error
                then scheduleConfigRetry st else (st, None)) as [st1 timer].
      apply ensurePolling_needs_keys.
    + apply ensurePolling_needs_keys.
  - unfold retry_timer_fires. now destruct (configRetryTimer st).
Qed.

(** X15.  In every state the plugin reaches, the interval timer runs only
    while at least one key is shown: events, config loads and retries
    never leave a timer behind without a key. *)
Theorem timer_runs_only_with_keys :
  forall es : list lifecycle_event, timer_needs_keys (run_all es initial).
Proof.
  intros es.
  assert (H : forall st, timer_needs_keys st ->
                         timer_needs_keys (run_all es st)).
  { induction es as [|e es IH]; intros st Hinv; [exact Hinv|].
    change (run_all (e :: es) st) with (run_all es (step_all e st)).
    apply IH, step_all_needs_keys, Hinv. }
  apply H. unfold timer_needs_keys. intros Habs. now elim Habs.
Qed.

(** The converse does not hold: a refresh request registers its key and
    polls once, but starts no timer. *)
Example refresh_request_starts_no_timer :
  let st := run_all [PluginEvent (Data "FLEXBAR-1" (Some battery_key))]
                    initial in
  batteryKeys st <> [] /\ pollTimer st = None /\ polls_started st = 1%nat.
Proof. cbv zeta. split; [discriminate|split; reflexivity]. Qed.

(** The registration loop of [plugin.alive] touches the keys and the
    drawing log only. *)
Lemma register_keys_frame serialNumber keys :
  forall st,
    let st' :=
      fold_left
        (fun s k =>
           if String.eqb (cid k) BATTERY_CID then
             drawKey serialNumber k (latestStatus s)
               (set_batteryKeys
                  (map_set (makeKeyId serialNumber (uid k)) (serialNumber, k)
                           (batteryKeys s)) s)
           else s)
        keys st in
    pluginConfig st' = pluginConfig st
    /\ latestStatus st' = latestStatus st
    /\ pollTimer st' = pollTimer st
    /\ pollIntervalMs st' = pollIntervalMs st
    /\ pollInFlight st' = pollInFlight st
    /\ polls_started st' = polls_started st
    /\ timer_calls (effects st') = timer_calls (effects st)
    /\ configRetryTimer st' = configRetryTimer st
    /\ configRetryAttempts st' = configRetryAttempts st.
Proof.
  induction keys as [|k keys IH]; intros st; cbn [fold_left];
    [cbv zeta; repeat split; reflexivity|].
  cbv zeta in IH. cbv zeta.
  destruct (String.eqb (cid k) BATTERY_CID); [|apply IH].
  match goal with
  | |- context [fold_left _ keys ?x] => specialize (IH x)
  end.
  destruct IH as (H1 & H2 & H3 & H4 & H5 & H6 & H7 & H8 & H9).
  rewrite H1, H2, H3, H4, H5, H6, H7, H8, H9.
  unfold drawKey. rewrite polls_started_emit, timer_calls_emit, app_nil_r.
  repeat split; try reflexivity. unfold polls_started. cbn. lia.
Qed.

(** A call of [pollAndUpdate] starts a read exactly when it puts a poll in
    flight. *)
Lemma pollAndUpdate_count forceRedraw force st :
  (polls_started (pollAndUpdate forceRedraw force st) + in_flight_count st
   = polls_started st
     + in_flight_count (pollAndUpdate forceRedraw force st))%nat.
Proof.
  unfold pollAndUpdate, in_flight_count.
  destruct (pollInFlight st) eqn:Ef.
  - destruct force; cbn [pollInFlight set_pendingForcedRefresh];
      rewrite ?Ef; reflexivity.
  - destruct (map_size (batteryKeys st) =? 0)%nat; [now rewrite Ef|].
    rewrite polls_started_emit. cbn. unfold polls_started. cbn. lia.
Qed.

Lemma stopPolling_count st :
  polls_started (stopPolling st) = polls_started st
  /\ pollInFlight (stopPolling st) = pollInFlight st.
Proof.
  unfold stopPolling. destruct (pollTimer st); [|auto].
  split; [|reflexivity].
  change (polls_started (emit (ClearInterval n) st) = polls_started st).
  rewrite polls_started_emit. lia.
Qed.

Lemma ensurePolling_count st :
  (polls_started (ensurePolling st) + in_flight_count st
   = polls_started st + in_flight_count (ensurePolling st))%nat.
Proof.
  unfold ensurePolling.
  destruct (map_size (batteryKeys st) =? 0)%nat.
  - destruct (stopPolling_count st) as [Hp Hf].
    unfold in_flight_count. now rewrite Hp, Hf.
  - destruct (_ && _); [reflexivity|].
    match goal with
    | |- context [pollAndUpdate true false ?x] =>
        pose proof (pollAndUpdate_count true false x) as H;
        assert (Hp : polls_started x = polls_started st);
        [|assert (Hf : in_flight_count x = in_flight_count st)
            by (destruct (pollTimer st); reflexivity)]
    end.
    + destruct (pollTimer st);
        unfold polls_started; cbn [effects set_pollTimer set_pollIntervalMs emit];
        rewrite !filter_app, !length_app; cbn; lia.
    + rewrite Hp, Hf in H. exact H.
Qed.

(** When a read settles, the count of reads in flight goes down by one
    unless a noted request starts the next read at once. *)
Lemma resume_count result st :
  guard_ok (guard st) ->
  (polls_started (pollAndUpdate_resume result st) + in_flight_count st
   <= polls_started st
      + in_flight_count (pollAndUpdate_resume result st) + 1)%nat.
Proof.
  intros Hok. unfold pollAndUpdate_resume.
  destruct (awaiting st) as [forceRedraw|] eqn:Ea; [|lia].
  match goal with
  | |- context [set_pollInFlight false None ?x] => set (shown := x)
  end.
  assert (Hs : polls_started shown = polls_started st).
  { unfold shown. destruct (_ || _); [|reflexivity].
    destruct (renderAllKeys_same (set_latestStatus (status_of result) st))
      as (_ & _ & _ & _ & _ & _ & _ & _ & Hp & _).
    exact Hp. }
  assert (Hf : (in_flight_count st <= 1)%nat)
    by (unfold in_flight_count; destruct (pollInFlight st); lia).
  destruct (pendingForcedRefresh _).
  - match goal with
    | |- context [pollAndUpdate true false ?x] =>
        pose proof (pollAndUpdate_count true false x) as H;
        assert (Hp : polls_started x = polls_started shown) by reflexivity;
        assert (Hz : in_flight_count x = 0%nat) by reflexivity
    end.
    rewrite Hp, Hz, Hs in H. lia.
  - change (polls_started (set_pollInFlight false None shown))
      with (polls_started shown). lia.
Qed.

Lemma guard_step_all (e : lifecycle_event) (st : plugin_state) :
  guard_ok (guard st) -> guard_ok (guard (step_all e st)).
Proof.
  intros Hok. destruct e as [e|result|]; cbn [step_all].
  - now apply guard_step.
  - unfold loadInitialConfig_resume. destruct result as [error|stored].
    + destruct (isTransportNotReadyError error); cbn [fst].
      * unfold scheduleConfigRetry.
        destruct (configRetryTimer st); apply guard_ensurePolling; exact Hok.
      * apply guard_ensurePolling. exact Hok.
    + cbn [fst]. apply guard_ensurePolling.
      now destruct (configRetryTimer _).
  - unfold retry_timer_fires. now destruct (configRetryTimer st).
Qed.

Lemma step_all_count (e : lifecycle_event) (st : plugin_state) :
  guard_ok (guard st) ->
  (polls_started (step_all e st) + in_flight_count st
   <= polls_started st + in_flight_count (step_all e st)
      + (if is_read_settled e then 1 else 0))%nat.
Proof.
  intros Hok.
  destruct e as [[|rawConfig|serialNumber keys|serialNumber data_key
                  |serialNumber|result]|result|];
    cbn [step_all step is_read_settled].
  - destruct (pollTimer st); [|lia].
    pose proof (pollAndUpdate_count false false st). lia.
  - unfold on_config_updated.
    match goal with
    | |- context [ensurePolling ?x] =>
        pose proof (ensurePolling_count x) as H;
        assert (Hp : polls_started x = polls_started st);
        [|assert (Hf : in_flight_count x = in_flight_count st)]
    end.
    + destruct (configRetryTimer _); [|reflexivity].
      unfold polls_started.
      cbn [effects set_configRetry set_pollIntervalMs set_pluginConfig emit].
      rewrite filter_app, length_app. cbn. lia.
    + now destruct (configRetryTimer _).
    + rewrite Hp, Hf in H. lia.
  - unfold on_alive.
    destruct (register_keys_frame serialNumber keys st)
      as (_ & _ & _ & _ & Hf & Hp & _).
    match goal with
    | |- context [ensurePolling ?x] =>
        pose proof (ensurePolling_count x) as H
    end.
    unfold in_flight_count in *. rewrite Hf, Hp in H. lia.
  - unfold on_data. destruct data_key as [k|]; [|lia].
    destruct (negb (String.eqb (cid k) BATTERY_CID)); [lia|].
    match goal with
    | |- context [pollAndUpdate true true ?x] =>
        pose proof (pollAndUpdate_count true true x) as H;
        assert (Hp : polls_started x = polls_started st)
          by (now destruct (negb (map_has _ _)));
        assert (Hf : in_flight_count x = in_flight_count st)
          by (now destruct (negb (map_has _ _)))
    end.
    rewrite Hp, Hf in H. lia.
  - unfold on_destroy. destruct serialNumber as [serial|]; [|lia].
    destruct (is_empty serial); [lia|].
    destruct (map_size _ =? 0)%nat.
    + match goal with
      | |- context [stopPolling ?x] =>
          destruct (stopPolling_count x) as [Hp Hf]
      end.
      unfold in_flight_count. rewrite Hp, Hf.
      unfold polls_started. cbn [effects pollInFlight set_batteryKeys]. lia.
    + cbn [batteryKeys set_batteryKeys].
      unfold polls_started, in_flight_count.
      cbn [effects pollInFlight set_batteryKeys]. lia.
  - pose proof (resume_count result st Hok). lia.
  - unfold loadInitialConfig_resume. destruct result as [error|stored].
    + destruct (if isTransportNotReadyError error
                then scheduleConfigRetry st else (st, None))
        as [st1 timer] eqn:E.
      assert (H1 : polls_started st1 = polls_started st
                   /\ in_flight_count st1 = in_flight_count st).
      { unfold scheduleConfigRetry in E.
        destruct (isTransportNotReadyError error), (configRetryTimer st);
          injection E as <- _; split; reflexivity. }
      destruct H1 as [Hp Hf]. cbn [fst].
      match goal with
      | |- context [ensurePolling ?x] =>
          pose proof (ensurePolling_count x) as H;
          change (polls_started x) with (polls_started st1) in H;
          change (in_flight_count x) with (in_flight_count st1) in H
      end.
      lia.
    + cbn [fst].
      match goal with
      | |- context [ensurePolling ?x] =>
          pose proof (ensurePolling_count x) as H;
          assert (Hp : polls_started x = polls_started st);
          [|assert (Hf : in_flight_count x = in_flight_count st)]
      end.
      * destruct (configRetryTimer _); [|reflexivity].
        unfold polls_started.
        cbn [effects set_configRetry set_pollIntervalMs set_pluginConfig emit].
        rewrite filter_app, length_app. cbn. lia.
      * now destruct (configRetryTimer _).
      * rewrite Hp, Hf in H. lia.
  - unfold retry_timer_fires, polls_started, in_flight_count.
    destruct (configRetryTimer st);
      cbn [effects pollInFlight set_configRetry]; lia.
Qed.

(** X16.  Reads never overlap: after any sequence of events, config loads
    and retries, the reads started exceed the reads that settled by at
    most one, and by one only while [pollInFlight] is set. *)
Theorem reads_never_overlap :
  forall es : list lifecycle_event,
    (polls_started (run_all es initial)
     <= settled_reads es + in_flight_count (run_all es initial))%nat.
Proof.
  intros es.
  assert (H : forall st,
             guard_ok (guard st) ->
             (polls_started (run_all es st) + in_flight_count st
              <= polls_started st + in_flight_count (run_all es st)
                 + settled_reads es)%nat).
  { induction es as [|e es IH]; intros st Hok; [cbn; lia|].
    change (run_all (e :: es) st) with (run_all es (step_all e st)).
    pose proof (IH _ (guard_step_all e st Hok)) as H1.
    pose proof (step_all_count e st Hok) as H2.
    assert (E : settled_reads (e :: es)
                = ((if is_read_settled e then 1 else 0)
                   + settled_reads es)%nat).
    { unfold settled_reads. cbn [filter].
      destruct e as [[| | | | |]| |]; reflexivity. }
    rewrite E. lia. }
  specialize (H initial I).
  change (polls_started initial) with 0%nat in H.
  change (in_flight_count initial) with 0%nat in H. lia.
Qed.

(* ================================================================== *)
(** ** What a settled read draws *)

Lemma draw_all_effects (s : status) (keys : list (string * (string * key))) :
  forall st,
    effects
      (fold_left (fun acc entry =>
                    drawKey (fst (snd entry)) (snd (snd entry)) s acc)
                 keys st)
    = (effects st ++ draws_of s keys)%list.
Proof.
  induction keys as [|entry keys IH]; intros st; cbn [fold_left draws_of map].
  - now rewrite app_nil_r.
  - rewrite IH. unfold drawKey. cbn [effects emit].
    now rewrite <- app_assoc.
Qed.

(** The log after a read settled: the draws, then the start of the next
    read if a request was noted. *)
Lemma resume_effects :
  forall (result : outcome) (st : plugin_state) (forceRedraw : bool),
    awaiting st = Some forceRedraw ->
    effects (pollAndUpdate_resume result st)
    = (effects st
       ++ (if negb (statusesEqual (status_of result) (latestStatus st))
              || forceRedraw
           then draws_of (status_of result) (batteryKeys st)
           else [])
       ++ (if pendingForcedRefresh st
              && negb (map_size (batteryKeys st) =? 0)%nat
           then [ReadStarted (pluginConfig st)]
           else []))%list.
Proof.
  intros result st forceRedraw Hawait.
  unfold pollAndUpdate_resume. rewrite Hawait.
  match goal with
  | |- context [set_pollInFlight false None ?x] => set (shown := x)
  end.
  assert (Hs : effects shown
               = (effects st
                  ++ (if negb (statusesEqual (status_of result)
                                             (latestStatus st))
                         || forceRedraw
                      then draws_of (status_of result) (batteryKeys st)
                      else []))%list
               /\ pendingForcedRefresh shown = pendingForcedRefresh st
               /\ batteryKeys shown = batteryKeys st
               /\ pluginConfig shown = pluginConfig st).
  { unfold shown. destruct (_ || _).
    - unfold renderAllKeys. cbn [latestStatus batteryKeys set_latestStatus].
      rewrite draw_all_effects.
      destruct (draw_all_same (status_of result) (batteryKeys st)
                  (set_latestStatus (status_of result) st))
        as (Hc & Hk & _ & _ & _ & _ & Hp & _).
      split; [reflexivity|]. repeat split; assumption.
    - rewrite app_nil_r. repeat split; reflexivity. }
  destruct Hs as (He & Hp & Hk & Hc).
  cbn [pendingForcedRefresh set_pollInFlight]. rewrite Hp.
  destruct (pendingForcedRefresh st); cbn [andb].
  - unfold pollAndUpdate.
    cbn [pollInFlight set_pendingForcedRefresh set_pollInFlight batteryKeys].
    rewrite Hk.
    destruct (map_size (batteryKeys st) =? 0)%nat; cbn [negb].
    + cbn [effects set_pendingForcedRefresh set_pollInFlight].
      now rewrite He, app_nil_r.
    + cbn [effects emit set_pendingForcedRefresh set_pollInFlight
             pluginConfig].
      now rewrite He, Hc, <- app_assoc.
  - cbn [effects set_pollInFlight]. now rewrite He, app_nil_r.
Qed.

(** X17.  When a read settles, the new status is cached and every key
    shown is drawn once with it, in the order of the map, if the status
    differs from the cached one or the poll was a forced one; otherwise
    the cached status stays and nothing is drawn.  Nothing else is done,
    but the start of the next read when a request was noted meanwhile. *)
Theorem settled_read_draws :
  forall (result : outcome) (st : plugin_state) (forceRedraw : bool),
    awaiting st = Some forceRedraw ->
    let redraw :=
      negb (statusesEqual (status_of result) (latestStatus st))
      || forceRedraw in
    latestStatus (pollAndUpdate_resume result st)
    = (if redraw then status_of result else latestStatus st)
    /\ effects (pollAndUpdate_resume result st)
       = (effects st
          ++ (if redraw
              then draws_of (status_of result) (batteryKeys st)
              else [])
          ++ (if pendingForcedRefresh st
                 && negb (map_size (batteryKeys st) =? 0)%nat
              then [ReadStarted (pluginConfig st)]
              else []))%list.
Proof.
  intros result st forceRedraw Hawait. cbv zeta. split.
  - now apply resume_latestStatus.
  - now apply resume_effects.
Qed.

Lemma settled_read_draws_witness :
  latestStatus (pollAndUpdate_resume (Resolved 57) first_poll_in_flight)
  = Value 57 "57%"
  /\ effects (pollAndUpdate_resume (Resolved 57) first_poll_in_flight)
     = (effects first_poll_in_flight
        ++ [Draw "FLEXBAR-1" "7" "57%" "#FFFFFF"])%list.
Proof.
  exact (settled_read_draws (Resolved 57) first_poll_in_flight true
                            eq_refl).
Defined.

Lemma register_keys_latestStatus serialNumber keys st :
  latestStatus
    (fold_left
       (fun s k =>
          if String.eqb (cid k) BATTERY_CID then
            drawKey serialNumber k (latestStatus s)
              (set_batteryKeys
                 (map_set (makeKeyId serialNumber (uid k)) (serialNumber, k)
                          (batteryKeys s)) s)
          else s)
       keys st)
  = latestStatus st.
Proof. now destruct (register_keys_frame serialNumber keys st) as (_ & H & _). Qed.

Lemma step_all_latestStatus (e : lifecycle_event) (st : plugin_state) :
  is_read_settled e = false ->
  latestStatus (step_all e st) = latestStatus st.
Proof.
  intros He.
  destruct e as [[|rawConfig|serialNumber keys|serialNumber data_key
                  |serialNumber|result]|result|];
    try discriminate; cbn [step_all step].
  - destruct (pollTimer st); [apply pollAndUpdate_latestStatus|reflexivity].
  - unfold on_config_updated.
    rewrite (proj1 (proj2 (proj2 (ensurePolling_store _)))).
    now destruct (configRetryTimer _).
  - unfold on_alive.
    rewrite (proj1 (proj2 (proj2 (ensurePolling_store _)))).
    apply register_keys_latestStatus.
  - unfold on_data. destruct data_key as [k|]; [|reflexivity].
    destruct (negb (String.eqb (cid k) BATTERY_CID)); [reflexivity|].
    rewrite pollAndUpdate_latestStatus. now destruct (negb (map_has _ _)).
  - unfold on_destroy. destruct serialNumber as [serial|]; [|reflexivity].
    destruct (is_empty serial); [reflexivity|].
    destruct (map_size _ =? 0)%nat; [|reflexivity].
    now rewrite (proj1 (proj2 (proj2 (stopPolling_store _)))).
  - unfold loadInitialConfig_resume. destruct result as [error|stored].
    + destruct (if isTransportNotReadyError error
                then scheduleConfigRetry st else (st, None))
        as [st1 timer] eqn:E.
      cbn [fst]. rewrite (proj1 (proj2 (proj2 (ensurePolling_store _)))).
      unfold scheduleConfigRetry in E.
      destruct (isTransportNotReadyError error), (configRetryTimer st);
        injection E as <- _; reflexivity.
    + cbn [fst]. rewrite (proj1 (proj2 (proj2 (ensurePolling_store _)))).
      now destruct (configRetryTimer _).
  - unfold retry_timer_fires. now destruct (configRetryTimer st).
Qed.

(** X18.  The cached status changes only when a read settles: no event of
    the host, no load of the configuration and no timer touches it. *)
Theorem status_changes_only_on_settled_read :
  forall (es : list lifecycle_event) (st : plugin_state),
    existsb is_read_settled es = false ->
    latestStatus (run_all es st) = latestStatus st.
Proof.
  induction es as [|e es IH]; intros st Hes; [reflexivity|].
  cbn [existsb] in Hes. apply orb_false_iff in Hes. destruct Hes as [He Hes].
  change (run_all (e :: es) st) with (run_all es (step_all e st)).
  rewrite (IH _ Hes). now apply step_all_latestStatus.
Qed.

Lemma status_changes_only_on_settled_read_witness :
  latestStatus
    (run_all [PluginEvent (ConfigUpdated (Some (raw_poll 60)));
              PluginEvent TimerTick;
              PluginEvent (Data "FLEXBAR-1" (Some battery_key));
              ConfigLoaded (inl None);
              PluginEvent (Destroy (Some "FLEXBAR-1"))]
             polling_every_30s)
  = latestStatus polling_every_30s.
Proof.
  apply (status_changes_only_on_settled_read
           [PluginEvent (ConfigUpdated (Some (raw_poll 60)));
            PluginEvent TimerTick;
            PluginEvent (Data "FLEXBAR-1" (Some battery_key));
            ConfigLoaded (inl None);
            PluginEvent (Destroy (Some "FLEXBAR-1"))]
           polling_every_30s).
  reflexivity.
Defined.

(* ================================================================== *)
(** ** Devices that come and go *)




(** Without a serial number, or with an empty one, nothing is forgotten. *)
Lemma destroy_needs_serial (st : plugin_state) :
  on_destroy None st = st /\ on_destroy (Some "") st = st.
Proof. split; reflexivity. Qed.

Lemma map_has_set {V} (k : string) (v : V) (m : list (string * V)) :
  map_has k (map_set k v m) = true.
Proof.
  induction m as [|[k' v'] m IH]; cbn [map_set map_has].
  - now rewrite String.eqb_refl.
  - destruct (String.eqb k k') eqn:E; cbn [map_has].
    + now rewrite String.eqb_refl.
    + now rewrite E, IH.
Qed.

Lemma map_has_keeps {V} (k k0 : string) (v : V) (m : list (string * V)) :
  map_has k0 m = true -> map_has k0 (map_set k v m) = true.
Proof.
  induction m as [|[k' v'] m IH]; cbn [map_set map_has]; [discriminate|].
  intros H. destruct (String.eqb k k') eqn:E; cbn [map_has].
  - apply String.eqb_eq in E. subst k'. exact H.
  - apply orb_true_iff in H. destruct H as [H|H]; [now rewrite H|].
    rewrite (IH H). apply orb_true_r.
Qed.

(** The registration loop: a key registered stays registered, what is
    drawn stays in the log, and every battery key of the list is
    registered and drawn with the cached status. *)
Lemma register_keys_grow serialNumber keys :
  forall st,
    let st' :=
      fold_left
        (fun s k =>
           if String.eqb (cid k) BATTERY_CID then
             drawKey serialNumber k (latestStatus s)
               (set_batteryKeys
                  (map_set (makeKeyId serialNumber (uid k)) (serialNumber, k)
                           (batteryKeys s)) s)
           else s)
        keys st in
    (forall id, map_has id (batteryKeys st) = true ->
                map_has id (batteryKeys st') = true)
    /\ (forall e, In e (effects st) -> In e (effects st'))
    /\ (forall k, In k keys -> cid k = BATTERY_CID ->
                  map_has (makeKeyId serialNumber (uid k)) (batteryKeys st')
                  = true
                  /\ In (draw_of serialNumber k (latestStatus st))
                        (effects st')).
Proof.
  induction keys as [|k keys IH]; intros st; cbv zeta; cbn [fold_left].
  - split; [auto|]. split; [auto|]. intros k [].
  - cbv zeta in IH.
    destruct (String.eqb (cid k) BATTERY_CID) eqn:Ec.
    + match goal with
      | |- context [fold_left _ keys ?x] =>
          destruct (IH x) as (Hm & He & Hk); set (st1 := x) in *
      end.
      assert (Hs1 : latestStatus st1 = latestStatus st) by reflexivity.
      split; [|split].
      * intros id Hid. apply Hm. unfold st1, drawKey.
        cbn [batteryKeys emit set_batteryKeys]. now apply map_has_keeps.
      * intros e Hin. apply He. unfold st1, drawKey.
        cbn [effects emit set_batteryKeys]. apply in_or_app. now left.
      * intros k0 [<-|Hin] Hc.
        -- split.
           ++ apply Hm. unfold st1, drawKey.
              cbn [batteryKeys emit set_batteryKeys]. apply map_has_set.
           ++ apply He. unfold st1, drawKey.
              cbn [effects emit set_batteryKeys]. apply in_or_app. right.
              left. reflexivity.
        -- rewrite <- Hs1. now apply Hk.
    + destruct (IH st) as (Hm & He & Hk).
      split; [exact Hm|]. split; [exact He|].
      intros k0 [<-|Hin] Hc; [|now apply Hk].
      rewrite Hc, String.eqb_refl in Ec. discriminate.
Qed.

Lemma pollAndUpdate_effects_grow forceRedraw force st e :
  In e (effects st) -> In e (effects (pollAndUpdate forceRedraw force st)).
Proof.
  unfold pollAndUpdate.
  destruct (pollInFlight st); [now destruct force|].
  destruct (map_size (batteryKeys st) =? 0)%nat; [auto|].
  intros H. cbn [effects emit set_pollInFlight]. apply in_or_app. now left.
Qed.

Lemma ensurePolling_effects_grow st e :
  In e (effects st) -> In e (effects (ensurePolling st)).
Proof.
  intros H. unfold ensurePolling.
  destruct (map_size (batteryKeys st) =? 0)%nat.
  - unfold stopPolling. destruct (pollTimer st); [|exact H].
    cbn [effects emit set_pollTimer]. apply in_or_app. now left.
  - destruct (_ && _); [exact H|].
    apply pollAndUpdate_effects_grow.
    cbn [effects emit set_pollTimer set_pollIntervalMs].
    apply in_or_app. left.
    destruct (pollTimer st); [|exact H].
    cbn [effects emit]. apply in_or_app. now left.
Qed.

(** With a key to show and no timer, [ensurePolling] leaves a poll in
    flight. *)
Lemma ensurePolling_first_poll st :
  batteryKeys st <> [] -> pollTimer st = None ->
  pollInFlight (ensurePolling st) = true.
Proof.
  intros Hk Ht. unfold ensurePolling.
  destruct (batteryKeys st) as [|entry rest] eqn:Ek; [contradiction|].
  cbn [map_size List.length Nat.eqb]. rewrite Ht. cbn [andb].
  unfold pollAndUpdate.
  cbn [pollInFlight batteryKeys set_pollTimer emit set_pollIntervalMs].
  rewrite Ek. cbn [map_size List.length Nat.eqb].
  destruct (pollInFlight st) eqn:Ef; [exact Ef | reflexivity].
Qed.

(** X20.  Every battery key a device announces is registered under its
    key id and drawn at once with the cached status; afterwards the timer
    runs, and a poll is in flight if no timer ran before. *)
Theorem alive_registers_and_draws :
  forall (serialNumber : string) (keys : list key) (st : plugin_state)
         (k : key),
    In k keys -> cid k = BATTERY_CID ->
    let st' := on_alive serialNumber keys st in
    map_has (makeKeyId serialNumber (uid k)) (batteryKeys st') = true
    /\ In (draw_of serialNumber k (latestStatus st)) (effects st')
    /\ pollTimer st' <> None
    /\ (pollTimer st = None -> pollInFlight st' = true).
Proof.
  intros serialNumber keys st k Hin Hc. cbv zeta. unfold on_alive.
  destruct (register_keys_grow serialNumber keys st) as (_ & _ & Hk).
  destruct (Hk k Hin Hc) as [Hhas Hdraw].
  destruct (register_keys_frame serialNumber keys st)
    as (_ & _ & Ht & _).
  cbv zeta in Hhas, Hdraw, Ht.
  match goal with
  | |- context [ensurePolling ?x] => set (st1 := x) in *
  end.
  assert (Hne : batteryKeys st1 <> []) by (eapply map_has_not_nil; eauto).
  destruct (ensurePolling_store st1) as (_ & Hkeys & _).
  split; [now rewrite Hkeys|].
  split; [now apply ensurePolling_effects_grow|].
  split; [now apply ensurePolling_timer|].
  intros Hnone. apply ensurePolling_first_poll; [exact Hne|].
  now rewrite Ht.
Qed.

Lemma alive_registers_and_draws_witness :
  map_has "FLEXBAR-1:7" (batteryKeys (on_alive "FLEXBAR-1" [battery_key] initial))
  = true
  /\ pollInFlight (on_alive "FLEXBAR-1" [battery_key] initial) = true.
Proof.
  destruct (alive_registers_and_draws "FLEXBAR-1" [battery_key] initial
              battery_key (or_introl eq_refl) eq_refl)
    as (Hhas & _ & _ & Hfly).
  split; [exact Hhas | exact (Hfly eq_refl)].
Defined.

(** A device that announces no battery key registers nothing. *)
Lemma alive_without_battery_key serialNumber keys st :
  Forall (fun k => cid k <> BATTERY_CID) keys ->
  batteryKeys (on_alive serialNumber keys st) = batteryKeys st
  /\ effects (on_alive serialNumber keys st) = effects (ensurePolling st).
Proof.
  intros Hall. unfold on_alive.
  assert (E : fold_left
                (fun s k =>
                   if String.eqb (cid k) BATTERY_CID then
                     drawKey serialNumber k (latestStatus s)
                       (set_batteryKeys
                          (map_set (makeKeyId serialNumber (uid k))
                                   (serialNumber, k) (batteryKeys s)) s)
                   else s) keys st = st).
  { revert st. induction Hall as [|k keys Hk _ IH]; intros st; [reflexivity|].
    cbn [fold_left]. apply String.eqb_neq in Hk. rewrite Hk. apply IH. }
  rewrite E. split; [|reflexivity].
  now destruct (ensurePolling_store st) as (_ & H & _).
Qed.

(* ================================================================== *)
(** ** Key ids *)

(** X21.  For serial numbers without a colon, the key id determines the
    pair of serial number and uid: two keys share an entry of the map only
    if they are the same key of the same device. *)
Theorem makeKeyId_injective :
  forall serial1 uid1 serial2 uid2 : string,
    no_colon serial1 = true -> no_colon serial2 = true ->
    makeKeyId serial1 uid1 = makeKeyId serial2 uid2 ->
    serial1 = serial2 /\ uid1 = uid2.
Proof.
  unfold makeKeyId.
  induction serial1 as [|c serial1 IH]; intros uid1 serial2 uid2 H1 H2 E.
  - destruct serial2 as [|c2 serial2]; cbn in E.
    + split; [reflexivity | congruence].
    + cbn [no_colon] in H2. apply andb_true_iff in H2. destruct H2 as [H2 _].
      injection E as Ec _. subst c2. discriminate.
  - destruct serial2 as [|c2 serial2]; cbn in E.
    + cbn [no_colon] in H1. apply andb_true_iff in H1. destruct H1 as [H1 _].
      injection E as Ec _. subst c. discriminate.
    + injection E as Ec E. subst c2.
      cbn [no_colon] in H1, H2.
      apply andb_true_iff in H1. apply andb_true_iff in H2.
      destruct (IH uid1 serial2 uid2 (proj2 H1) (proj2 H2) E) as [-> ->].
      split; reflexivity.
Qed.

Lemma makeKeyId_injective_witness :
  "FLEXBAR-1" = "FLEXBAR-1" /\ "7" = "7".
Proof.
  apply (makeKeyId_injective "FLEXBAR-1" "7" "FLEXBAR-1" "7");
    reflexivity.
Defined.

(** With a colon in a serial number two different keys collide, and the
    second replaces the first in the map. *)
Example colon_in_serial_collides :
  makeKeyId "a:b" "c" = makeKeyId "a" "b:c"
  /\ map_size
       (batteryKeys
          (run [Alive "a:b" [{| cid := BATTERY_CID; uid := "c" |}];
                Alive "a" [{| cid := BATTERY_CID; uid := "b:c" |}]]
               initial)) = 1%nat.
Proof. split; reflexivity. Qed.

(* ================================================================== *)
(** ** The load of the stored configuration *)

Lemma retry_delay_closed (attempts : nat) :
  retry_delay attempts
  = if (attempts <? 4)%nat then 1000 * 2 ^ Z.of_nat attempts else 10000.
Proof.
  unfold retry_delay, CONFIG_RETRY_BASE_DELAY_MS, CONFIG_RETRY_MAX_DELAY_MS.
  destruct (Nat.ltb_spec attempts 4) as [Hlt|Hge].
  - destruct attempts as [|[|[|[|n]]]]; try reflexivity; lia.
  - assert (H : 2 ^ 4 <= 2 ^ Z.of_nat attempts)
      by (apply Z.pow_le_mono_r; lia).
    change (2 ^ 4) with 16 in H. lia.
Qed.

Lemma scheduleConfigRetry_free st :
  configRetryTimer st = false ->
  scheduleConfigRetry st
  = (set_configRetry true (S (configRetryAttempts st)) st,
     Some (retry_delay (configRetryAttempts st))).
Proof. unfold scheduleConfigRetry. now intros ->. Qed.

(** One failed load with the transport not ready and no retry pending,
    followed by the retry timer firing. *)
Lemma failed_load_then_retry message st :
  isTransportNotReadyError (Some message) = true ->
  configRetryTimer st = false ->
  let r := loadInitialConfig_resume (inl (Some message)) st in
  snd r = Some (retry_delay (configRetryAttempts st))
  /\ configRetryTimer (fst r) = true
  /\ configRetryTimer (retry_timer_fires (fst r)) = false
  /\ configRetryAttempts (retry_timer_fires (fst r))
     = S (configRetryAttempts st).
Proof.
  intros Hm Ht. cbv zeta. unfold loadInitialConfig_resume.
  rewrite Hm, (scheduleConfigRetry_free _ Ht). cbn [fst snd].
  match goal with
  | |- context [ensurePolling ?x] =>
      destruct (ensurePolling_store x) as (_ & _ & _ & Hr & Ha)
  end.
  split; [reflexivity|]. split; [now rewrite Hr|].
  unfold retry_timer_fires. rewrite Hr.
  cbn [configRetryTimer set_pollIntervalMs set_pluginConfig set_configRetry
         configRetryAttempts].
  split; [reflexivity|]. now rewrite Ha.
Qed.

(** X22.  While the load of the configuration fails because the transport
    is not ready, every failure sets one retry timer, and the delays
    double from 1000 ms up to the cap of 10000 ms: 1000, 2000, 4000, 8000,
    then 10000 each time. *)
Theorem config_retry_backs_off :
  forall (k : nat) (message : string) (st : plugin_state),
    isTransportNotReadyError (Some message) = true ->
    configRetryTimer st = false ->
    fst (failed_loads k message st)
    = map (fun i =>
             let n := (configRetryAttempts st + i)%nat in
             Some (if (n <? 4)%nat then 1000 * 2 ^ Z.of_nat n else 10000))
          (seq 0 k)
    /\ configRetryAttempts (snd (failed_loads k message st))
       = (configRetryAttempts st + k)%nat
    /\ configRetryTimer (snd (failed_loads k message st)) = false.
Proof.
  induction k as [|k IH]; intros message st Hm Ht.
  - cbn. split; [reflexivity|]. split; [lia | exact Ht].
  - cbn [failed_loads].
    destruct (failed_load_then_retry message st Hm Ht)
      as (Hd & _ & Hfree & Hn).
    cbv zeta in Hd, Hfree, Hn.
    destruct (loadInitialConfig_resume (inl (Some message)) st)
      as [st1 timer] eqn:E1.
    cbn [fst snd] in Hd, Hfree, Hn.
    destruct (IH message (retry_timer_fires st1) Hm Hfree)
      as (Hl & Ha & Hf).
    destruct (failed_loads k message (retry_timer_fires st1))
      as [timers st2] eqn:E2.
    cbn [fst snd] in *.
    split; [|split; [rewrite Ha, Hn; lia | exact Hf]].
    cbn [seq map]. rewrite Hd, retry_delay_closed, Nat.add_0_r.
    f_equal. rewrite Hl, <- seq_shift, map_map.
    apply map_ext. intros i. cbv zeta. rewrite Hn.
    now replace (S (configRetryAttempts st) + i)%nat
      with (configRetryAttempts st + S i)%nat by lia.
Qed.

Lemma config_retry_backs_off_witness :
  fst (failed_loads 6 transport_not_ready initial)
  = [Some 1000; Some 2000; Some 4000; Some 8000; Some 10000; Some 10000].
Proof.
  apply (config_retry_backs_off 6 transport_not_ready initial);
    reflexivity.
Defined.

(** X23.  The outcome of a load of the configuration.  When it fails, the
    defaults are put in force, whatever was in force before, and a retry
    timer is set exactly when the error is the one of a transport that is
    not ready and no retry is pending.  When it succeeds, the stored
    configuration is built and put in force, the count of retries is reset
    and no retry stays pending.  Either way the interval in force is the
    one of the configuration in force. *)
Theorem load_outcome :
  forall (st : plugin_state),
    (forall error,
        let r := loadInitialConfig_resume (inl error) st in
        pluginConfig (fst r) = DEFAULT_CONFIG
        /\ pollIntervalMs (fst r) = of_Z 30000
        /\ snd r
           = (if isTransportNotReadyError error
                 && negb (configRetryTimer st)
              then Some (retry_delay (configRetryAttempts st))
              else None)
        /\ configRetryTimer (fst r)
           = configRetryTimer st || isTransportNotReadyError error)
    /\ (forall stored,
           let r := loadInitialConfig_resume (inr stored) st in
           pluginConfig (fst r) = buildConfig stored
           /\ pollIntervalMs (fst r)
              = getPollIntervalMs (buildConfig stored)
           /\ snd r = None
           /\ configRetryTimer (fst r) = false
           /\ configRetryAttempts (fst r) = 0%nat).
Proof.
  intros st.
  assert (Hint : forall x,
             pollIntervalMs x = getPollIntervalMs (pluginConfig x) ->
             pollIntervalMs (ensurePolling x)
             = getPollIntervalMs (pluginConfig x)).
  { intros x Hx. unfold ensurePolling.
    destruct (map_size (batteryKeys x) =? 0)%nat.
    - unfold stopPolling. now destruct (pollTimer x).
    - destruct (_ && _); [exact Hx|].
      unfold pollAndUpdate.
      destruct (pollInFlight _); [reflexivity|].
      destruct (map_size _ =? 0)%nat; reflexivity. }
  split.
  - intros error. cbv zeta. unfold loadInitialConfig_resume.
    destruct (if isTransportNotReadyError error
              then scheduleConfigRetry st else (st, None))
      as [st1 timer] eqn:E.
    cbn [fst snd].
    match goal with
    | |- context [ensurePolling ?x] =>
        destruct (ensurePolling_store x) as (Hc & _ & _ & Hr & _);
        pose proof (Hint x eq_refl) as Hi
    end.
    rewrite Hc, Hr, Hi.
    cbn [pluginConfig set_pollIntervalMs set_pluginConfig configRetryTimer].
    split; [reflexivity|]. split; [reflexivity|].
    unfold scheduleConfigRetry in E.
    destruct (isTransportNotReadyError error), (configRetryTimer st) eqn:Et;
      injection E as <- <-; cbn; rewrite ?Et; split; reflexivity.
  - intros stored. cbv zeta. unfold loadInitialConfig_resume. cbn [fst snd].
    match goal with
    | |- context [ensurePolling ?x] =>
        destruct (ensurePolling_store x) as (Hc & _ & _ & Hr & Ha);
        assert (Hx : pollIntervalMs x = getPollIntervalMs (pluginConfig x))
          by (now destruct (configRetryTimer _));
        pose proof (Hint x Hx) as Hi
    end.
    rewrite Hc, Hr, Ha, Hi.
    destruct (configRetryTimer _); repeat split; reflexivity.
Qed.

(** A load that fails after the user changed the configuration puts the
    defaults back in force. *)
Example failed_load_overrides_update :
  pollIntervalSeconds
    (pluginConfig
       (run_all [PluginEvent (ConfigUpdated (Some (raw_poll 60)));
                 ConfigLoaded (inl None)] initial))
  = of_Z 30.
Proof. reflexivity. Qed.

(* ================================================================== *)
(** ** The interval timer *)

Lemma timer_log_emit_other l running e st :
  effects st = l ->
  timer_log l running ->
  match e with SetInterval _ | ClearInterval _ => False | _ => True end ->
  timer_log (effects (emit e st)) running.
Proof.
  intros <- Hl He. cbn [effects emit]. now apply timer_log_other.
Qed.

Lemma timer_log_draws (s : status) (keys : list (string * (string * key))) :
  forall l running,
    timer_log l running -> timer_log (l ++ draws_of s keys) running.
Proof.
  induction keys as [|entry keys IH]; intros l running Hl;
    cbn [draws_of map]; [now rewrite app_nil_r|].
  change (?x :: map ?f keys) with ([x] ++ map f keys)%list.
  rewrite app_assoc. apply IH. now apply timer_log_other.
Qed.

Lemma timer_log_pollAndUpdate forceRedraw force st :
  timer_log (effects st) (pollTimer st) ->
  timer_log (effects (pollAndUpdate forceRedraw force st))
            (pollTimer (pollAndUpdate forceRedraw force st)).
Proof.
  intros H. unfold pollAndUpdate.
  destruct (pollInFlight st); [now destruct force|].
  destruct (map_size (batteryKeys st) =? 0)%nat; [exact H|].
  cbn [effects pollTimer emit set_pollInFlight]. now apply timer_log_other.
Qed.

Lemma timer_log_stopPolling st :
  timer_log (effects st) (pollTimer st) ->
  timer_log (effects (stopPolling st)) (pollTimer (stopPolling st)).
Proof.
  intros H. unfold stopPolling.
  destruct (pollTimer st) as [t|] eqn:Et; [|now rewrite Et].
  cbn [effects pollTimer emit set_pollTimer]. now apply timer_log_clear.
Qed.

Lemma timer_log_ensurePolling st :
  timer_log (effects st) (pollTimer st) ->
  timer_log (effects (ensurePolling st)) (pollTimer (ensurePolling st)).
Proof.
  intros H. unfold ensurePolling.
  destruct (map_size (batteryKeys st) =? 0)%nat;
    [now apply timer_log_stopPolling|].
  destruct (_ && _); [exact H|].
  apply timer_log_pollAndUpdate.
  cbn [effects pollTimer emit set_pollTimer set_pollIntervalMs
         pollIntervalMs].
  apply timer_log_set.
  destruct (pollTimer st) as [t|] eqn:Et.
  - cbn [effects emit]. now apply timer_log_clear.
  - exact H.
Qed.

Lemma timer_log_register serialNumber keys :
  forall st,
    timer_log (effects st) (pollTimer st) ->
    let st' :=
      fold_left
        (fun s k =>
           if String.eqb (cid k) BATTERY_CID then
             drawKey serialNumber k (latestStatus s)
               (set_batteryKeys
                  (map_set (makeKeyId serialNumber (uid k)) (serialNumber, k)
                           (batteryKeys s)) s)
           else s)
        keys st in
    timer_log (effects st') (pollTimer st').
Proof.
  induction keys as [|k keys IH]; intros st H; cbv zeta; cbn [fold_left];
    [exact H|].
  cbv zeta in IH. apply IH.
  destruct (String.eqb (cid k) BATTERY_CID); [|exact H].
  unfold drawKey. cbn [effects pollTimer emit set_batteryKeys].
  now apply timer_log_other.
Qed.

Lemma timer_log_resume result st :
  timer_log (effects st) (pollTimer st) ->
  timer_log (effects (pollAndUpdate_resume result st))
            (pollTimer (pollAndUpdate_resume result st)).
Proof.
  intros H.
  destruct (resume_store result st) as (_ & _ & Ht & _). rewrite Ht.
  destruct (awaiting st) as [forceRedraw|] eqn:Ea.
  - rewrite (resume_effects result st forceRedraw Ea).
    assert (H1 : forall l, timer_log l (pollTimer st) ->
                 timer_log
                   (l ++ (if pendingForcedRefresh st
                             && negb (map_size (batteryKeys st) =? 0)%nat
                          then [ReadStarted (pluginConfig st)]
                          else [])) (pollTimer st)).
    { intros l Hl. destruct (_ && _); [|now rewrite app_nil_r].
      now apply timer_log_other. }
    rewrite app_assoc. apply H1.
    destruct (_ || _); [|now rewrite app_nil_r].
    now apply timer_log_draws.
  - unfold pollAndUpdate_resume. now rewrite Ea.
Qed.

Lemma timer_log_step_all (e : lifecycle_event) (st : plugin_state) :
  timer_log (effects st) (pollTimer st) ->
  timer_log (effects (step_all e st)) (pollTimer (step_all e st)).
Proof.
  intros H.
  destruct e as [[|rawConfig|serialNumber keys|serialNumber data_key
                  |serialNumber|result]|result|]; cbn [step_all step].
  - destruct (pollTimer st) eqn:Et; [|now rewrite Et].
    apply timer_log_pollAndUpdate. now rewrite Et.
  - unfold on_config_updated. apply timer_log_ensurePolling.
    destruct (configRetryTimer _);
      cbn [effects pollTimer emit set_configRetry set_pollIntervalMs
             set_pluginConfig]; [now apply timer_log_other | exact H].
  - unfold on_alive. apply timer_log_ensurePolling.
    now apply timer_log_register.
  - unfold on_data. destruct data_key as [k|]; [|exact H].
    destruct (negb (String.eqb (cid k) BATTERY_CID)); [exact H|].
    apply timer_log_pollAndUpdate. now destruct (negb (map_has _ _)).
  - unfold on_destroy. destruct serialNumber as [serial|]; [|exact H].
    destruct (is_empty serial); [exact H|].
    destruct (map_size _ =? 0)%nat; [|exact H].
    now apply timer_log_stopPolling.
  - now apply timer_log_resume.
  - unfold loadInitialConfig_resume. destruct result as [error|stored].
    + destruct (if isTransportNotReadyError error
                then scheduleConfigRetry st else (st, None))
        as [st1 timer] eqn:E.
      cbn [fst]. apply timer_log_ensurePolling.
      unfold scheduleConfigRetry in E.
      destruct (isTransportNotReadyError error), (configRetryTimer st);
        injection E as <- _; exact H.
    + cbn [fst]. apply timer_log_ensurePolling.
      destruct (configRetryTimer _);
        cbn [effects pollTimer emit set_configRetry set_pollIntervalMs
               set_pluginConfig]; [now apply timer_log_other | exact H].
  - unfold retry_timer_fires. now destruct (configRetryTimer st).
Qed.

(** X24.  At most one interval timer runs: in the log of every reachable
    state, [setInterval] is called only when no timer runs, the timer
    [clearInterval] clears is the one that runs, and the timer left
    running is the one [pollTimer] holds. *)
Theorem one_interval_timer :
  forall es : list lifecycle_event,
    timer_log (effects (run_all es initial)) (pollTimer (run_all es initial)).
Proof.
  intros es.
  assert (H : forall st,
             timer_log (effects st) (pollTimer st) ->
             timer_log (effects (run_all es st)) (pollTimer (run_all es st))).
  { induction es as [|e es IH]; intros st Hst; [exact Hst|].
    change (run_all (e :: es) st) with (run_all es (step_all e st)).
    apply IH, timer_log_step_all, Hst. }
  apply H. constructor.
Qed.

Lemma timer_log_last l e running :
  timer_log (l ++ [e]) running ->
  match e with
  | SetInterval ms => timer_log l None /\ running = Some ms
  | ClearInterval t => timer_log l (Some t) /\ running = None
  | _ => timer_log l running
  end.
Proof.
  intros H.
  inversion H as [E|l0 ms H0 E|l0 t H0 E|l0 r0 e0 H0 He E].
  - destruct l; discriminate.
  - apply app_inj_tail in E. destruct E as [-> <-]. auto.
  - apply app_inj_tail in E. destruct E as [-> <-]. auto.
  - apply app_inj_tail in E. destruct E as [-> <-]. subst r0.
    destruct e0; try exact H0; contradiction.
Qed.

(** The relation is not trivial: a log that sets a second timer while one
    runs has no running timer to give. *)
Example two_timers_refused :
  forall (ms ms' : number) (running : option number),
    ~ timer_log [SetInterval ms; SetInterval ms'] running.
Proof.
  intros ms ms' running H.
  apply (timer_log_last [SetInterval ms]) in H. destruct H as [H _].
  apply (timer_log_last []) in H. destruct H as [_ H]. discriminate.
Qed.





